(** * rlbot.managers: the hivemind controller and the rendering manager

    A shallow embedding of [rlbot/managers/hivemind.py] and
    [rlbot/managers/rendering.py], with the properties of the handshake,
    the packet loop, the desired-state writer and the render batcher. *)

From Stdlib Require Import ZArith List String Ascii Lia.
From stdpp Require Import base option list gmap strings.

Local Open Scope Z_scope.

(** ** The interpreter's [hash] on [bytes]

    [_get_group_id] calls the builtin [hash] on a [bytes] object.  CPython
    (3.11 and later, [Python/pyhash.c]) hashes bytes with SipHash-1-3 keyed
    by the two 64-bit words [k0], [k1] of the interpreter's hash secret,
    which is drawn once when the process starts. *)
Module PyHash.

Record Secret := { k0 : Z; k1 : Z }.

Definition u64 (x : Z) : Z := x mod 2 ^ 64.

Definition rotl (x b : Z) : Z :=
  u64 (Z.lor (Z.shiftl x b) (Z.shiftr x (64 - b))).

Definition sipstate : Type := Z * Z * Z * Z.

(* HALF_ROUND(a,b,c,d,s,t) *)
Definition half_round (a b c d s t : Z) : sipstate :=
  let a := u64 (a + b) in
  let c := u64 (c + d) in
  let b := Z.lxor (rotl b s) a in
  let d := Z.lxor (rotl d t) c in
  let a := rotl a 32 in
  (a, b, c, d).

(* SINGLE_ROUND(v0,v1,v2,v3) *)
Definition single_round (v : sipstate) : sipstate :=
  let '(v0, v1, v2, v3) := v in
  let '(v0, v1, v2, v3) := half_round v0 v1 v2 v3 13 16 in
  let '(v2, v1, v0, v3) := half_round v2 v1 v0 v3 17 21 in
  (v0, v1, v2, v3).

(* little-endian value of at most eight bytes *)
Fixpoint le_bytes (bs : list Z) : Z :=
  match bs with
  | [] => 0
  | b :: rest => b + 256 * le_bytes rest
  end.

Definition absorb (mi : Z) (v : sipstate) : sipstate :=
  let '(v0, v1, v2, v3) := v in
  let '(v0, v1, v2, v3) := single_round (v0, v1, v2, Z.lxor v3 mi) in
  (Z.lxor v0 mi, v1, v2, v3).

(* the [while (src_sz >= 8)] loop; returns the state and the tail *)
Fixpoint compress (inp : list Z) (v : sipstate) : sipstate * list Z :=
  match inp with
  | b0 :: b1 :: b2 :: b3 :: b4 :: b5 :: b6 :: b7 :: rest =>
      compress rest (absorb (le_bytes [b0; b1; b2; b3; b4; b5; b6; b7]) v)
  | tail => (v, tail)
  end.

Definition siphash13 (s : Secret) (src : list Z) : Z :=
  let b := u64 (Z.shiftl (Z.of_nat (length src)) 56) in
  let v0 := Z.lxor (k0 s) 0x736f6d6570736575 in
  let v1 := Z.lxor (k1 s) 0x646f72616e646f6d in
  let v2 := Z.lxor (k0 s) 0x6c7967656e657261 in
  let v3 := Z.lxor (k1 s) 0x7465646279746573 in
  let '(v, tail) := compress src (v0, v1, v2, v3) in
  let b := Z.lor b (le_bytes tail) in
  let '(v0, v1, v2, v3) := absorb b v in
  let v2 := Z.lxor v2 0xff in
  let '(v0, v1, v2, v3) :=
    single_round (single_round (single_round (v0, v1, v2, v3))) in
  Z.lxor (Z.lxor v0 v1) (Z.lxor v2 v3).

(* the cast of the unsigned result to [Py_hash_t] *)
Definition to_signed (x : Z) : Z :=
  if x <? 2 ^ 63 then x else x - 2 ^ 64.

(* [_Py_HashBytes]: the empty input hashes to 0, and -1 is reserved *)
Definition hash_bytes (s : Secret) (src : list Z) : Z :=
  match src with
  | [] => 0
  | _ =>
      let x := to_signed (siphash13 s src) in
      if x =? -1 then -2 else x
  end.

(* [lcg_urandom]: how the secret's bytes follow from PYTHONHASHSEED *)
Fixpoint lcg_urandom (n : nat) (x : Z) : list Z :=
  match n with
  | O => []
  | S n' =>
      let x := (x * 214013 + 2531011) mod 2 ^ 32 in
      Z.land (Z.shiftr x 16) 255 :: lcg_urandom n' x
  end.

(* PYTHONHASHSEED=0 switches the randomisation off: the secret is zero *)
Definition secret_of_seed (seed : Z) : Secret :=
  if seed =? 0 then {| k0 := 0; k1 := 0 |}
  else
    let bs := lcg_urandom 24 seed in
    {| k0 := le_bytes (take 8 bs); k1 := le_bytes (take 8 (drop 8 bs)) |}.

(* a [str] is held as its UTF-8 bytes, which is all the caller looks at *)
Definition encode_utf8 (s : string) : list Z :=
  map (fun c => Z.of_N (N_of_ascii c)) (list_ascii_of_string s).

End PyHash.

(** ** rendering.py *)
Module Rendering.

Definition MAX_INT : Z := 2147483647 `div` 2.
Definition DEFAULT_GROUP_ID : string := "default".

(* flat's draw payloads are opaque to the manager *)
Record String2D := { string2d_payload : Z }.
Record String3D := { string3d_payload : Z }.
Record Line3D := { line3d_payload : Z }.
Record PolyLine3D := { polyline3d_payload : Z }.

Inductive RenderType :=
| string_2_d (render : String2D)
| string_3_d (render : String3D)
| line_3_d (render : Line3D)
| poly_line_3_d (render : PolyLine3D).

Record RenderMessage := { variety : RenderType }.

Record RenderGroup := { render_messages : list RenderMessage; id : Z }.

(* what a method call lets out: a record on the "renderer" logger, or a
   message handed to the relay *)
Inductive Effect :=
| log_error (msg : string)
| send_render_group (g : RenderGroup)
| remove_render_group (gid : Z).

Record RenderingManager := {
  used_group_ids : gset Z;
  group_id : option Z;
  current_renders : list RenderMessage
}.

(* __init__ *)
Definition new : RenderingManager :=
  {| used_group_ids := ∅; group_id := None; current_renders := [] |}.

Section Process.
(* the hash secret of the interpreter the manager runs in *)
Variable secret : PyHash.Secret.

Definition _get_group_id (name : string) : Z :=
  PyHash.hash_bytes secret (PyHash.encode_utf8 name) `mod` MAX_INT.

Definition begin_rendering (name : string) (r : RenderingManager)
  : RenderingManager * list Effect :=
  match group_id r with
  | Some _ =>
      (r, [log_error "begin_rendering was called twice without end_rendering."])
  | None =>
      let gid := _get_group_id name in
      ({| used_group_ids := {[gid]} ∪ used_group_ids r;
          group_id := Some gid;
          current_renders := current_renders r |}, [])
  end.

Definition clear_render_group (name : string) (r : RenderingManager)
  : RenderingManager * list Effect :=
  let group_id_hash := _get_group_id name in
  ({| used_group_ids := used_group_ids r ∖ {[group_id_hash]};
      group_id := group_id r;
      current_renders := current_renders r |},
   [remove_render_group group_id_hash]).
End Process.

(* the group is handed to the relay before the pending list is cleared *)
Definition end_rendering (r : RenderingManager)
  : RenderingManager * list Effect :=
  match group_id r with
  | None =>
      (r, [log_error "end_rendering was called without begin_rendering first."])
  | Some gid =>
      ({| used_group_ids := used_group_ids r;
          group_id := None;
          current_renders := [] |},
       [send_render_group
          {| render_messages := current_renders r; id := gid |}])
  end.

(* the removals follow the iteration over the set, whose order Python
   leaves open; [elements] fixes one *)
Definition clear_all_render_groups (r : RenderingManager)
  : RenderingManager * list Effect :=
  ({| used_group_ids := ∅;
      group_id := group_id r;
      current_renders := current_renders r |},
   remove_render_group <$> elements (used_group_ids r)).

Definition is_rendering (r : RenderingManager) : bool :=
  bool_decide (group_id r ≠ None).

Definition append_render (m : RenderMessage) (r : RenderingManager)
  : RenderingManager :=
  {| used_group_ids := used_group_ids r;
     group_id := group_id r;
     current_renders := current_renders r ++ [m] |}.

Definition draw_string_2d (render : String2D) (r : RenderingManager)
  : RenderingManager * list Effect :=
  (append_render {| variety := string_2_d render |} r, []).

Definition draw_string_3d (render : String3D) (r : RenderingManager)
  : RenderingManager * list Effect :=
  (append_render {| variety := string_3_d render |} r, []).

Definition draw_line_3d (render : Line3D) (r : RenderingManager)
  : RenderingManager * list Effect :=
  (append_render {| variety := line_3_d render |} r, []).

Definition draw_polyline_3d (render : PolyLine3D) (r : RenderingManager)
  : RenderingManager * list Effect :=
  (append_render {| variety := poly_line_3_d render |} r, []).

(* a call of one of the four draw operations *)
Inductive DrawCall :=
| call_draw_string_2d (render : String2D)
| call_draw_string_3d (render : String3D)
| call_draw_line_3d (render : Line3D)
| call_draw_polyline_3d (render : PolyLine3D).

Definition draw (c : DrawCall) : RenderingManager -> RenderingManager * list Effect :=
  match c with
  | call_draw_string_2d x => draw_string_2d x
  | call_draw_string_3d x => draw_string_3d x
  | call_draw_line_3d x => draw_line_3d x
  | call_draw_polyline_3d x => draw_polyline_3d x
  end.

(* the descriptor a draw call wraps its argument in *)
Definition descriptor (c : DrawCall) : RenderMessage :=
  match c with
  | call_draw_string_2d x => {| variety := string_2_d x |}
  | call_draw_string_3d x => {| variety := string_3_d x |}
  | call_draw_line_3d x => {| variety := line_3_d x |}
  | call_draw_polyline_3d x => {| variety := poly_line_3_d x |}
  end.

(* calls made one after the other, with everything they let out *)
Fixpoint draw_all (cs : list DrawCall) (r : RenderingManager)
  : RenderingManager * list Effect :=
  match cs with
  | [] => (r, [])
  | c :: cs' =>
      let '(r1, e1) := draw c r in
      let '(r2, e2) := draw_all cs' r1 in
      (r2, e1 ++ e2)
  end.

(** *** Runs of calls on one manager *)

Inductive Call :=
| call_begin_rendering (name : string)
| call_end_rendering
| call_draw (c : DrawCall)
| call_clear_render_group (name : string)
| call_clear_all_render_groups.

Definition perform (secret : PyHash.Secret) (c : Call)
  : RenderingManager -> RenderingManager * list Effect :=
  match c with
  | call_begin_rendering name => begin_rendering secret name
  | call_end_rendering => end_rendering
  | call_draw d => draw d
  | call_clear_render_group name => clear_render_group secret name
  | call_clear_all_render_groups => clear_all_render_groups
  end.

Fixpoint perform_all (secret : PyHash.Secret) (cs : list Call)
    (r : RenderingManager) : RenderingManager * list Effect :=
  match cs with
  | [] => (r, [])
  | c :: cs' =>
      let '(r1, e1) := perform secret c r in
      let '(r2, e2) := perform_all secret cs' r1 in
      (r2, e1 ++ e2)
  end.

(* the descriptors of the draw calls of a run, in order *)
Definition drawn (cs : list Call) : list RenderMessage :=
  flat_map (fun c => match c with call_draw d => [descriptor d] | _ => [] end) cs.

(* the descriptors inside the groups sent, in order *)
Definition sent_renders (es : list Effect) : list RenderMessage :=
  flat_map (fun e =>
              match e with
              | send_render_group g => render_messages g
              | _ => []
              end) es.

Definition is_send_render_group (e : Effect) : bool :=
  match e with send_render_group _ => true | _ => false end.

Definition is_log_error (e : Effect) : bool :=
  match e with log_error _ => true | _ => false end.

Definition is_begin_or_end (c : Call) : bool :=
  match c with
  | call_begin_rendering _ | call_end_rendering => true
  | _ => false
  end.

(* 1 while a batch is open, 0 otherwise *)
Definition open_batches (r : RenderingManager) : nat :=
  match group_id r with Some _ => 1%nat | None => 0%nat end.

(* the ids of the names a run opens, or tries to open, a batch under *)
Definition begun_ids (secret : PyHash.Secret) (cs : list Call) : list Z :=
  flat_map (fun c =>
              match c with
              | call_begin_rendering name => [_get_group_id secret name]
              | _ => []
              end) cs.

End Rendering.

(** ** hivemind.py *)
Module Hive.

(** *** The payloads of [flat], as far as the controller looks into them *)

Record PlayerConfiguration := { name : string; spawn_id : Z }.
Record MatchSettings := { player_configurations : list PlayerConfiguration }.
Record FieldInfo := { field_info_payload : Z }.
Record ControllableInfo := { controllable_spawn_id : Z; controllable_index : Z }.
Record TeamControllables := {
  controllables_team : Z;
  controllables : list ControllableInfo
}.
Record BallPrediction := { ball_prediction_payload : Z }.
Record PlayerInfo := { player_info_payload : Z }.
Record GameTickPacket := { players : list PlayerInfo; frame_num : Z }.
Record ControllerState := { controller_state_payload : Z }.
Record PlayerInput := { player_index : Z; controller_state : ControllerState }.
Record MatchComm := {
  comm_index : Z;
  comm_team : Z;
  comm_team_only : bool;
  comm_display : option string;
  comm_content : list Z
}.
Record DesiredBallState := { desired_ball_physics : option Z }.
Record DesiredCarState := { desired_car_physics : option Z }.
Record DesiredGameInfoState := { desired_game_info_payload : Z }.
Record ConsoleCommand := { command : string }.
Record PlayerLoadout := { loadout_payload : Z }.
Record SetLoadout := { loadout_spawn_id : Z; loadout : PlayerLoadout }.

(* flat.MatchSettings(), flat.FieldInfo(), flat.BallPrediction(),
   flat.DesiredBallState(), flat.DesiredCarState() *)
Definition MatchSettings_default : MatchSettings :=
  {| player_configurations := [] |}.
Definition FieldInfo_default : FieldInfo := {| field_info_payload := 0 |}.
Definition BallPrediction_default : BallPrediction :=
  {| ball_prediction_payload := 0 |}.
Definition DesiredBallState_default : DesiredBallState :=
  {| desired_ball_physics := None |}.
Definition DesiredCarState_default : DesiredCarState :=
  {| desired_car_physics := None |}.

(* A sequence field holds [None] until it is assigned: it is then as the
   constructor left it, and carries nothing of the caller's. *)
Record DesiredGameState := {
  ball_states : option (list DesiredBallState);
  car_states : option (list DesiredCarState);
  game_info_state : option DesiredGameInfoState;
  console_commands : list ConsoleCommand
}.

(** *** Exceptions *)

Inductive exn :=
| IndexError
| TypeError
| AttributeError
| NotImplementedError
| OverflowError
| BlockingIOError
| UserError (msg : string)
| KeyboardInterrupt
| SystemExit (code : option Z).

(* [except Exception] lets the two BaseException-only classes through *)
Definition is_Exception (e : exn) : bool :=
  match e with
  | KeyboardInterrupt | SystemExit _ => false
  | _ => true
  end.

(** *** The relay *)

(* the methods of a controller that are handed to the relay as callbacks *)
Inductive BoundMethod :=
| bound__handle_match_settings
| bound__handle_field_info
| bound__handle_player_mappings
| bound__handle_match_communication
| bound__handle_ball_prediction
| bound__handle_packet.

(** Modelled from the spec: SocketRelay (rlbot.interface) is not among the
    sources.  It keeps one registration list per inbound message kind:
    match settings, field info, player-mapping, match communication, ball
    prediction, per-tick packet; a new relay has them empty. *)
Record SocketRelay := {
  relay_group_id : string;
  match_settings_handlers : list BoundMethod;
  field_info_handlers : list BoundMethod;
  player_mapping_handlers : list BoundMethod;
  match_communication_handlers : list BoundMethod;
  ball_prediction_handlers : list BoundMethod;
  packet_handlers : list BoundMethod
}.

Definition SocketRelay_new (group_id : string) : SocketRelay :=
  {| relay_group_id := group_id;
     match_settings_handlers := [];
     field_info_handlers := [];
     player_mapping_handlers := [];
     match_communication_handlers := [];
     ball_prediction_handlers := [];
     packet_handlers := [] |}.

(* [r.<list>.append(h)] *)
Definition append_match_settings_handlers (h : BoundMethod) (r : SocketRelay) : SocketRelay :=
  {| relay_group_id := relay_group_id r;
     match_settings_handlers := match_settings_handlers r ++ [h];
     field_info_handlers := field_info_handlers r;
     player_mapping_handlers := player_mapping_handlers r;
     match_communication_handlers := match_communication_handlers r;
     ball_prediction_handlers := ball_prediction_handlers r;
     packet_handlers := packet_handlers r |}.

Definition append_field_info_handlers (h : BoundMethod) (r : SocketRelay) : SocketRelay :=
  {| relay_group_id := relay_group_id r;
     match_settings_handlers := match_settings_handlers r;
     field_info_handlers := field_info_handlers r ++ [h];
     player_mapping_handlers := player_mapping_handlers r;
     match_communication_handlers := match_communication_handlers r;
     ball_prediction_handlers := ball_prediction_handlers r;
     packet_handlers := packet_handlers r |}.

Definition append_player_mapping_handlers (h : BoundMethod) (r : SocketRelay) : SocketRelay :=
  {| relay_group_id := relay_group_id r;
     match_settings_handlers := match_settings_handlers r;
     field_info_handlers := field_info_handlers r;
     player_mapping_handlers := player_mapping_handlers r ++ [h];
     match_communication_handlers := match_communication_handlers r;
     ball_prediction_handlers := ball_prediction_handlers r;
     packet_handlers := packet_handlers r |}.

Definition append_match_communication_handlers (h : BoundMethod) (r : SocketRelay) : SocketRelay :=
  {| relay_group_id := relay_group_id r;
     match_settings_handlers := match_settings_handlers r;
     field_info_handlers := field_info_handlers r;
     player_mapping_handlers := player_mapping_handlers r;
     match_communication_handlers := match_communication_handlers r ++ [h];
     ball_prediction_handlers := ball_prediction_handlers r;
     packet_handlers := packet_handlers r |}.

Definition append_ball_prediction_handlers (h : BoundMethod) (r : SocketRelay) : SocketRelay :=
  {| relay_group_id := relay_group_id r;
     match_settings_handlers := match_settings_handlers r;
     field_info_handlers := field_info_handlers r;
     player_mapping_handlers := player_mapping_handlers r;
     match_communication_handlers := match_communication_handlers r;
     ball_prediction_handlers := ball_prediction_handlers r ++ [h];
     packet_handlers := packet_handlers r |}.

Definition append_packet_handlers (h : BoundMethod) (r : SocketRelay) : SocketRelay :=
  {| relay_group_id := relay_group_id r;
     match_settings_handlers := match_settings_handlers r;
     field_info_handlers := field_info_handlers r;
     player_mapping_handlers := player_mapping_handlers r;
     match_communication_handlers := match_communication_handlers r;
     ball_prediction_handlers := ball_prediction_handlers r;
     packet_handlers := packet_handlers r ++ [h] |}.

(** *** The controller's state *)

(* The four lists that the class body binds ([loggers], [indices], [names],
   [spawn_ids]).  No method ever assigns [self.indices] and the like, so on
   every instance these names resolve to the class attribute: one list
   object each, changed in place by [append]. *)
Record Roster := {
  loggers : list string;
  indices : list Z;
  names : list string;
  spawn_ids : list Z
}.

(* the class body: every list starts empty *)
Definition Roster_initial : Roster :=
  {| loggers := []; indices := []; names := []; spawn_ids := [] |}.

(* The attributes that methods assign on [self].  Until its first
   assignment such an attribute reads the class's value; those values are
   never changed on the class, so an instance starts from them. *)
Record Hivemind := {
  team : Z;
  match_settings : MatchSettings;
  field_info : FieldInfo;
  ball_prediction : BallPrediction;
  _initialized_bot : bool;
  _has_match_settings : bool;
  _has_field_info : bool;
  _has_player_mapping : bool;
  _latest_packet : option GameTickPacket;
  _latest_prediction : BallPrediction;
  _game_interface : option SocketRelay;
  renderer : option Rendering.RenderingManager
}.

Definition set_team (v : Z) (h : Hivemind) : Hivemind :=
  {| team := v;
     match_settings := match_settings h;
     field_info := field_info h;
     ball_prediction := ball_prediction h;
     _initialized_bot := _initialized_bot h;
     _has_match_settings := _has_match_settings h;
     _has_field_info := _has_field_info h;
     _has_player_mapping := _has_player_mapping h;
     _latest_packet := _latest_packet h;
     _latest_prediction := _latest_prediction h;
     _game_interface := _game_interface h;
     renderer := renderer h |}.

Definition set_match_settings (v : MatchSettings) (h : Hivemind) : Hivemind :=
  {| team := team h;
     match_settings := v;
     field_info := field_info h;
     ball_prediction := ball_prediction h;
     _initialized_bot := _initialized_bot h;
     _has_match_settings := _has_match_settings h;
     _has_field_info := _has_field_info h;
     _has_player_mapping := _has_player_mapping h;
     _latest_packet := _latest_packet h;
     _latest_prediction := _latest_prediction h;
     _game_interface := _game_interface h;
     renderer := renderer h |}.

Definition set_field_info (v : FieldInfo) (h : Hivemind) : Hivemind :=
  {| team := team h;
     match_settings := match_settings h;
     field_info := v;
     ball_prediction := ball_prediction h;
     _initialized_bot := _initialized_bot h;
     _has_match_settings := _has_match_settings h;
     _has_field_info := _has_field_info h;
     _has_player_mapping := _has_player_mapping h;
     _latest_packet := _latest_packet h;
     _latest_prediction := _latest_prediction h;
     _game_interface := _game_interface h;
     renderer := renderer h |}.

Definition set_ball_prediction (v : BallPrediction) (h : Hivemind) : Hivemind :=
  {| team := team h;
     match_settings := match_settings h;
     field_info := field_info h;
     ball_prediction := v;
     _initialized_bot := _initialized_bot h;
     _has_match_settings := _has_match_settings h;
     _has_field_info := _has_field_info h;
     _has_player_mapping := _has_player_mapping h;
     _latest_packet := _latest_packet h;
     _latest_prediction := _latest_prediction h;
     _game_interface := _game_interface h;
     renderer := renderer h |}.

Definition set__initialized_bot (v : bool) (h : Hivemind) : Hivemind :=
  {| team := team h;
     match_settings := match_settings h;
     field_info := field_info h;
     ball_prediction := ball_prediction h;
     _initialized_bot := v;
     _has_match_settings := _has_match_settings h;
     _has_field_info := _has_field_info h;
     _has_player_mapping := _has_player_mapping h;
     _latest_packet := _latest_packet h;
     _latest_prediction := _latest_prediction h;
     _game_interface := _game_interface h;
     renderer := renderer h |}.

Definition set__has_match_settings (v : bool) (h : Hivemind) : Hivemind :=
  {| team := team h;
     match_settings := match_settings h;
     field_info := field_info h;
     ball_prediction := ball_prediction h;
     _initialized_bot := _initialized_bot h;
     _has_match_settings := v;
     _has_field_info := _has_field_info h;
     _has_player_mapping := _has_player_mapping h;
     _latest_packet := _latest_packet h;
     _latest_prediction := _latest_prediction h;
     _game_interface := _game_interface h;
     renderer := renderer h |}.

Definition set__has_field_info (v : bool) (h : Hivemind) : Hivemind :=
  {| team := team h;
     match_settings := match_settings h;
     field_info := field_info h;
     ball_prediction := ball_prediction h;
     _initialized_bot := _initialized_bot h;
     _has_match_settings := _has_match_settings h;
     _has_field_info := v;
     _has_player_mapping := _has_player_mapping h;
     _latest_packet := _latest_packet h;
     _latest_prediction := _latest_prediction h;
     _game_interface := _game_interface h;
     renderer := renderer h |}.

Definition set__has_player_mapping (v : bool) (h : Hivemind) : Hivemind :=
  {| team := team h;
     match_settings := match_settings h;
     field_info := field_info h;
     ball_prediction := ball_prediction h;
     _initialized_bot := _initialized_bot h;
     _has_match_settings := _has_match_settings h;
     _has_field_info := _has_field_info h;
     _has_player_mapping := v;
     _latest_packet := _latest_packet h;
     _latest_prediction := _latest_prediction h;
     _game_interface := _game_interface h;
     renderer := renderer h |}.

Definition set__latest_packet (v : option GameTickPacket) (h : Hivemind) : Hivemind :=
  {| team := team h;
     match_settings := match_settings h;
     field_info := field_info h;
     ball_prediction := ball_prediction h;
     _initialized_bot := _initialized_bot h;
     _has_match_settings := _has_match_settings h;
     _has_field_info := _has_field_info h;
     _has_player_mapping := _has_player_mapping h;
     _latest_packet := v;
     _latest_prediction := _latest_prediction h;
     _game_interface := _game_interface h;
     renderer := renderer h |}.

Definition set__latest_prediction (v : BallPrediction) (h : Hivemind) : Hivemind :=
  {| team := team h;
     match_settings := match_settings h;
     field_info := field_info h;
     ball_prediction := ball_prediction h;
     _initialized_bot := _initialized_bot h;
     _has_match_settings := _has_match_settings h;
     _has_field_info := _has_field_info h;
     _has_player_mapping := _has_player_mapping h;
     _latest_packet := _latest_packet h;
     _latest_prediction := v;
     _game_interface := _game_interface h;
     renderer := renderer h |}.

Definition set__game_interface (v : option SocketRelay) (h : Hivemind) : Hivemind :=
  {| team := team h;
     match_settings := match_settings h;
     field_info := field_info h;
     ball_prediction := ball_prediction h;
     _initialized_bot := _initialized_bot h;
     _has_match_settings := _has_match_settings h;
     _has_field_info := _has_field_info h;
     _has_player_mapping := _has_player_mapping h;
     _latest_packet := _latest_packet h;
     _latest_prediction := _latest_prediction h;
     _game_interface := v;
     renderer := renderer h |}.

Definition set_renderer (v : option Rendering.RenderingManager) (h : Hivemind) : Hivemind :=
  {| team := team h;
     match_settings := match_settings h;
     field_info := field_info h;
     ball_prediction := ball_prediction h;
     _initialized_bot := _initialized_bot h;
     _has_match_settings := _has_match_settings h;
     _has_field_info := _has_field_info h;
     _has_player_mapping := _has_player_mapping h;
     _latest_packet := _latest_packet h;
     _latest_prediction := _latest_prediction h;
     _game_interface := _game_interface h;
     renderer := v |}.

Definition Hivemind_blank : Hivemind :=
  {| team := -1;
     match_settings := MatchSettings_default;
     field_info := FieldInfo_default;
     ball_prediction := BallPrediction_default;
     _initialized_bot := false;
     _has_match_settings := false;
     _has_field_info := false;
     _has_player_mapping := false;
     _latest_packet := None;
     _latest_prediction := BallPrediction_default;
     _game_interface := None;
     renderer := None |}.

(** *** What a call lets out *)

Inductive LogArg :=
| arg_str (s : string)
| arg_names (l : list string)
| arg_exn (e : exn).

Inductive Effect :=
| log_critical (fmt : string) (args : list LogArg)
| log_error (fmt : string) (args : list LogArg)
| print_exc
| call_initialize
| call_get_outputs (packet : GameTickPacket)
| call_handle_match_communication
    (index team : Z) (content : list Z) (display : option string)
    (team_only : bool)
| setblocking (flag : bool)
| relay_send_init_complete
| relay_send_player_input (player_input : PlayerInput)
| relay_send_match_comm (match_comm : MatchComm)
| relay_send_game_state (game_state : DesiredGameState)
| relay_send_set_loadout (msg : SetLoadout).

(** *** Method bodies: state passing with exceptions

    A method runs on the class's lists, the instance it is called on, and
    the effects let out so far; it returns or raises. *)

Record Frame := { cls : Roster; self : Hivemind; out : list Effect }.

Inductive Result (A : Type) :=
| Returns (a : A) (f : Frame)
| Raises (e : exn) (f : Frame).
Arguments Returns {A} a f.
Arguments Raises {A} e f.

Definition M (A : Type) : Type := Frame -> Result A.

Definition ret {A} (a : A) : M A := fun f => Returns a f.

Definition bind {A B} (m : M A) (k : A -> M B) : M B :=
  fun f =>
    match m f with
    | Returns a f' => k a f'
    | Raises e f' => Raises e f'
    end.

Definition raise {A} (e : exn) : M A := fun f => Raises e f.

Definition frame_of {A} (r : Result A) : Frame :=
  match r with
  | Returns _ f => f
  | Raises _ f => f
  end.

Declare Scope hive_scope.
Delimit Scope hive_scope with hive.
Notation "x <- c1 ;; c2" := (bind c1 (fun x => c2))
  (at level 100, c1 at next level, right associativity) : hive_scope.
Notation "c1 ;; c2" := (bind c1 (fun _ => c2))
  (at level 100, right associativity) : hive_scope.
Local Open Scope hive_scope.

Definition emit (e : Effect) : M unit :=
  fun f => Returns tt {| cls := cls f; self := self f; out := out f ++ [e] |}.

Definition get_self : M Hivemind := fun f => Returns (self f) f.

Definition get_cls : M Roster := fun f => Returns (cls f) f.

Definition update_self (g : Hivemind -> Hivemind) : M unit :=
  fun f => Returns tt {| cls := cls f; self := g (self f); out := out f |}.

Definition update_cls (g : Roster -> Roster) : M unit :=
  fun f => Returns tt {| cls := g (cls f); self := self f; out := out f |}.

(* [for x in l: body(x)] *)
Fixpoint for_each {A} (l : list A) (body : A -> M unit) : M unit :=
  match l with
  | [] => ret tt
  | x :: l' => body x ;; for_each l' body
  end.

(* [try: body  except Exception as e: handler(e)] *)
Definition try_except_Exception {A} (body : M A) (handler : exn -> M A) : M A :=
  fun f =>
    match body f with
    | Returns a f' => Returns a f'
    | Raises e f' => if is_Exception e then handler e f' else Raises e f'
    end.

(* [self.<list>.append(x)] on the class's lists *)
Definition append_spawn_id (x : Z) (c : Roster) : Roster :=
  {| loggers := loggers c; indices := indices c; names := names c;
     spawn_ids := spawn_ids c ++ [x] |}.

Definition append_index (x : Z) (c : Roster) : Roster :=
  {| loggers := loggers c; indices := indices c ++ [x]; names := names c;
     spawn_ids := spawn_ids c |}.

Definition append_name (x : string) (c : Roster) : Roster :=
  {| loggers := loggers c; indices := indices c; names := names c ++ [x];
     spawn_ids := spawn_ids c |}.

(* a logger is known by the name [get_logger] was given *)
Definition append_logger (x : string) (c : Roster) : Roster :=
  {| loggers := loggers c ++ [x]; indices := indices c; names := names c;
     spawn_ids := spawn_ids c |}.

(** *** The constructors of [flat] that take integers

    [flat]'s classes are not among the sources; their integer fields are
    fixed-width, and a constructor given a value outside the field's range
    raises OverflowError. *)

Definition fits_uint32 (n : Z) : bool := (0 <=? n) && (n <? 2 ^ 32).

Definition fits_int32 (n : Z) : bool := (- 2 ^ 31 <=? n) && (n <? 2 ^ 31).

(* flat.PlayerInput(index, controller): the index is unsigned *)
Definition PlayerInput_new (index : Z) (controller : ControllerState)
  : M PlayerInput :=
  if fits_uint32 index
  then ret {| player_index := index; controller_state := controller |}
  else raise OverflowError.

(* flat.MatchComm(index, team, team_only, display, content): the index and
   the team are unsigned *)
Definition MatchComm_new (index team : Z) (team_only : bool)
    (display : option string) (content : list Z) : M MatchComm :=
  if fits_uint32 index && fits_uint32 team
  then ret {| comm_index := index;
              comm_team := team;
              comm_team_only := team_only;
              comm_display := display;
              comm_content := content |}
  else raise OverflowError.

(* flat.SetLoadout(spawn_id, loadout): the spawn id is signed *)
Definition SetLoadout_new (spawn_id : Z) (loadout : PlayerLoadout)
  : M SetLoadout :=
  if fits_int32 spawn_id
  then ret {| loadout_spawn_id := spawn_id; loadout := loadout |}
  else raise OverflowError.

(** *** The hooks of a concrete controller

    [initialize], [get_outputs] and [handle_match_communication] are what a
    subclass overrides.  A hook sees the roster and the instance, and
    returns or raises; it is taken not to assign the controller's own
    attributes. *)

Inductive Outcome (A : Type) :=
| returned (a : A)
| raised (e : exn).
Arguments returned {A} a.
Arguments raised {A} e.

Class Bot := {
  initialize : Roster -> Hivemind -> Outcome unit;
  get_outputs :
    Roster -> Hivemind -> GameTickPacket -> Outcome (list (Z * ControllerState));
  handle_match_communication :
    Roster -> Hivemind -> Z -> Z -> list Z -> option string -> bool ->
    Outcome unit
}.

(* the class as it stands: two empty hooks, and [get_outputs] unimplemented *)
Definition Hivemind_base : Bot :=
  {| initialize := fun _ _ => returned tt;
     get_outputs := fun _ _ _ => raised NotImplementedError;
     handle_match_communication := fun _ _ _ _ _ _ _ => returned tt |}.

(* the messages the relay hands to handlers, and one poll of the socket *)
Inductive Inbound :=
| in_match_settings (match_settings : MatchSettings)
| in_field_info (field_info : FieldInfo)
| in_player_mappings (player_mappings : TeamControllables)
| in_match_communication (match_comm : MatchComm)
| in_ball_prediction (ball_prediction : BallPrediction)
| in_packet (packet : GameTickPacket).

Inductive PollEnd := would_block | finished.

Record Poll := { arrived : list Inbound; poll_end : PollEnd }.

Inductive LoopCtl := Break | Continue.

Section Methods.
Context {bot : Bot}.

(* a call of a hook: the call is let out, then the hook decides *)
Definition call_hook {A} (ev : Effect) (body : Roster -> Hivemind -> Outcome A)
  : M A :=
  emit ev ;;
  fun f =>
    match body (cls f) (self f) with
    | returned a => Returns a f
    | raised e => Raises e f
    end.

Definition __init__ (RLBOT_GROUP_ID : option string) : M unit :=
  match RLBOT_GROUP_ID with
  | None =>
      emit (log_critical "RLBOT_GROUP_ID environment variable is not set" []) ;;
      raise (SystemExit (Some 1))
  | Some group_id =>
      let r := SocketRelay_new group_id in
      let r := append_match_settings_handlers bound__handle_match_settings r in
      let r := append_field_info_handlers bound__handle_field_info r in
      let r :=
        append_match_communication_handlers bound__handle_match_communication r in
      let r :=
        append_ball_prediction_handlers bound__handle_ball_prediction r in
      let r := append_packet_handlers bound__handle_packet r in
      update_self (set__game_interface (Some r)) ;;
      update_self (set_renderer (Some Rendering.new))
  end.

Definition _initialize : M unit :=
  h <- get_self ;;
  (* search match settings for our spawn ids *)
  for_each (player_configurations (match_settings h)) (fun player =>
    c <- get_cls ;;
    if bool_decide (spawn_id player ∈ spawn_ids c) then
      update_cls (append_name (name player)) ;;
      update_cls (append_logger (name player))
    else ret tt) ;;
  try_except_Exception
    (call_hook call_initialize initialize)
    (fun e =>
       c <- get_cls ;;
       emit (log_critical
               "Hivemind %s failed to initialize due the following error: %s"
               [arg_str match names c with
                        | [] => "Unknown"
                        | n :: _ => n
                        end;
                arg_exn e]) ;;
       emit print_exc ;;
       raise (SystemExit None)) ;;
  update_self (set__initialized_bot true) ;;
  emit relay_send_init_complete.

Definition _handle_match_settings (match_settings : MatchSettings) : M unit :=
  update_self (set_match_settings match_settings) ;;
  update_self (set__has_match_settings true) ;;
  h <- get_self ;;
  if negb (_initialized_bot h) && _has_field_info h && _has_player_mapping h
  then _initialize
  else ret tt.

Definition _handle_field_info (field_info : FieldInfo) : M unit :=
  update_self (set_field_info field_info) ;;
  update_self (set__has_field_info true) ;;
  h <- get_self ;;
  if negb (_initialized_bot h) && _has_match_settings h && _has_player_mapping h
  then _initialize
  else ret tt.

Definition _handle_player_mappings (player_mappings : TeamControllables)
  : M unit :=
  update_self (set_team (controllables_team player_mappings)) ;;
  for_each (controllables player_mappings) (fun controllable =>
    update_cls (append_spawn_id (controllable_spawn_id controllable)) ;;
    update_cls (append_index (controllable_index controllable))) ;;
  update_self (set__has_player_mapping true) ;;
  h <- get_self ;;
  if negb (_initialized_bot h) && _has_match_settings h && _has_field_info h
  then _initialize
  else ret tt.

Definition _handle_ball_prediction (ball_prediction : BallPrediction) : M unit :=
  update_self (set__latest_prediction ball_prediction).

Definition _handle_packet (packet : GameTickPacket) : M unit :=
  update_self (set__latest_packet (Some packet)).

Definition _packet_processor (packet : GameTickPacket) : M unit :=
  c <- get_cls ;;
  match last (indices c) with
  | None => raise IndexError
  | Some last_index =>
      if Z.of_nat (length (players packet)) <=? last_index then ret tt
      else
        h <- get_self ;;
        update_self (set_ball_prediction (_latest_prediction h)) ;;
        fun f =>
          match call_hook (call_get_outputs packet)
                          (fun c h => get_outputs c h packet) f with
          | Raises e f' =>
              if is_Exception e then
                (c <- get_cls ;;
                 emit (log_error
                         "Hivemind (with %s) returned an error to RLBot: %s"
                         [arg_names (names c); arg_exn e]) ;;
                 emit print_exc) f'
              else Raises e f'
          | Returns controller f' =>
              for_each controller (fun '(index, controller) =>
                player_input <- PlayerInput_new index controller ;;
                emit (relay_send_player_input player_input)) f'
          end
  end.

Definition _handle_match_communication (match_comm : MatchComm) : M unit :=
  call_hook
    (call_handle_match_communication
       (comm_index match_comm) (comm_team match_comm)
       (comm_content match_comm) (comm_display match_comm)
       (comm_team_only match_comm))
    (fun c h =>
       handle_match_communication c h
         (comm_index match_comm) (comm_team match_comm)
         (comm_content match_comm) (comm_display match_comm)
         (comm_team_only match_comm)).

Definition send_match_comm (index : Z) (content : list Z)
    (display : option string) (team_only : bool) : M unit :=
  h <- get_self ;;
  match_comm <- MatchComm_new index (team h) team_only display content ;;
  emit (relay_send_match_comm match_comm).

(* [max] over a sequence of keys: [None] where Python raises ValueError *)
Fixpoint max_of (ks : list Z) : option Z :=
  match ks with
  | [] => None
  | k :: ks' =>
      match max_of ks' with
      | None => Some k
      | Some m => Some (Z.max k m)
      end
  end.

(* the dictionary-to-list conversion of [set_game_state], for one
   dictionary: [None] where the [if] is not entered *)
Definition fill_blanks {V} (blank : V) (d : gmap Z V) : option (list V) :=
  if bool_decide (d = ∅) then None
  else
    max_entry ← max_of (map_to_list d).*1;
    Some (map (fun i => default blank (d !! i)) (seqZ 0 (max_entry + 1))).

Definition set_game_state
    (balls : gmap Z DesiredBallState) (cars : gmap Z DesiredCarState)
    (game_info : option DesiredGameInfoState) (commands : list ConsoleCommand)
  : M unit :=
  let game_state :=
    {| ball_states := None; car_states := None;
       game_info_state := game_info; console_commands := commands |} in
  (* convert the dictionaries to lists by filling in the blanks with empty
     states *)
  let game_state :=
    match fill_blanks DesiredBallState_default balls with
    | Some l =>
        {| ball_states := Some l; car_states := car_states game_state;
           game_info_state := game_info_state game_state;
           console_commands := console_commands game_state |}
    | None => game_state
    end in
  let game_state :=
    match fill_blanks DesiredCarState_default cars with
    | Some l =>
        {| ball_states := ball_states game_state; car_states := Some l;
           game_info_state := game_info_state game_state;
           console_commands := console_commands game_state |}
    | None => game_state
    end in
  emit (relay_send_game_state game_state).

Definition set_loadout (loadout : PlayerLoadout) (spawn_id : Z) : M unit :=
  msg <- SetLoadout_new spawn_id loadout ;;
  emit (relay_send_set_loadout msg).

(** Modelled from the spec: SocketRelay.handle_incoming_messages is not
    among the sources.  It drives handler dispatch (each arrived message goes
    to the handlers registered for its kind, in order) and may raise a
    would-block condition. *)
Definition invoke (h : BoundMethod) (msg : Inbound) : M unit :=
  match h, msg with
  | bound__handle_match_settings, in_match_settings x => _handle_match_settings x
  | bound__handle_field_info, in_field_info x => _handle_field_info x
  | bound__handle_player_mappings, in_player_mappings x =>
      _handle_player_mappings x
  | bound__handle_match_communication, in_match_communication x =>
      _handle_match_communication x
  | bound__handle_ball_prediction, in_ball_prediction x =>
      _handle_ball_prediction x
  | bound__handle_packet, in_packet x => _handle_packet x
  | _, _ => raise TypeError
  end.

Definition handlers_for (r : SocketRelay) (msg : Inbound) : list BoundMethod :=
  match msg with
  | in_match_settings _ => match_settings_handlers r
  | in_field_info _ => field_info_handlers r
  | in_player_mappings _ => player_mapping_handlers r
  | in_match_communication _ => match_communication_handlers r
  | in_ball_prediction _ => ball_prediction_handlers r
  | in_packet _ => packet_handlers r
  end.

Definition handle_incoming_messages (p : Poll) : M unit :=
  h <- get_self ;;
  match _game_interface h with
  | None => raise AttributeError
  | Some r =>
      for_each (arrived p) (fun msg =>
        for_each (handlers_for r msg) (fun m => invoke m msg)) ;;
      match poll_end p with
      | would_block => raise BlockingIOError
      | finished => ret tt
      end
  end.

(* the loop body of [run] below its [try]: what is done with the mailbox *)
Definition drain : M unit :=
  h <- get_self ;;
  match _latest_packet h with
  | None => emit (setblocking true)
  | Some packet =>
      _packet_processor packet ;;
      update_self (set__latest_packet None)
  end.

(* one turn of the [while True] of [run] *)
Definition loop_body (p : Poll) : M LoopCtl :=
  fun f =>
    match handle_incoming_messages p f with
    | Returns _ f' => Returns Break f'
    | Raises BlockingIOError f' => (drain ;; ret Continue) f'
    | Raises e f' => Raises e f'
    end.

(* the turns of the loop over the polls seen so far *)
Fixpoint loop (ps : list Poll) : M LoopCtl :=
  match ps with
  | [] => ret Continue
  | p :: ps' =>
      ctl <- loop_body p ;;
      match ctl with
      | Break => ret Break
      | Continue => loop ps'
      end
  end.

End Methods.

(** *** Several instances in one process

    The class's lists are one store for all instances; each instance has
    its own attributes. *)

Record Process := {
  Hivemind_class : Roster;
  instances : gmap nat Hivemind;
  stream : list Effect
}.

(* the interpreter at start: the class body has run, nothing is constructed *)
Definition Process_start : Process :=
  {| Hivemind_class := Roster_initial; instances := ∅; stream := [] |}.

Definition enter (w : Process) (h : Hivemind) : Frame :=
  {| cls := Hivemind_class w; self := h; out := stream w |}.

Definition leave (o : nat) (f : Frame) (w : Process) : Process :=
  {| Hivemind_class := cls f;
     instances := <[o := self f]> (instances w);
     stream := out f |}.

(* [Hivemind()]: a new object, then [__init__] on it *)
Definition construct `{Bot} (RLBOT_GROUP_ID : option string) (w : Process)
  : Process * option nat :=
  let o := fresh (dom (instances w)) in
  match __init__ RLBOT_GROUP_ID (enter w Hivemind_blank) with
  | Returns _ f => (leave o f w, Some o)
  | Raises _ f =>
      ({| Hivemind_class := cls f; instances := instances w; stream := out f |},
       None)
  end.

(* [o.method(...)] *)
Definition method_call `{Bot} {A} (o : nat) (m : M A) (w : Process)
  : option (Process * Outcome A) :=
  h ← instances w !! o;
  Some match m (enter w h) with
       | Returns a f => (leave o f w, returned a)
       | Raises e f => (leave o f w, raised e)
       end.

(* [o.spawn_ids], [o.indices], [o.names], [o.loggers]: found on the class *)
Definition getattr_roster (w : Process) (o : nat) : option Roster :=
  _ ← instances w !! o;
  Some (Hivemind_class w).

(** *** Vocabulary of the properties *)

(* the three payloads of the handshake, and their handlers *)
Inductive Handshake :=
| match_settings_arrives (match_settings : MatchSettings)
| field_info_arrives (field_info : FieldInfo)
| player_mappings_arrive (player_mappings : TeamControllables).

Definition deliver `{Bot} (d : Handshake) : M unit :=
  match d with
  | match_settings_arrives x => _handle_match_settings x
  | field_info_arrives x => _handle_field_info x
  | player_mappings_arrive x => _handle_player_mappings x
  end.

Definition deliver_all `{Bot} (ds : list Handshake) : M unit :=
  for_each ds deliver.

Definition brings_match_settings (d : Handshake) : bool :=
  match d with match_settings_arrives _ => true | _ => false end.

Definition brings_field_info (d : Handshake) : bool :=
  match d with field_info_arrives _ => true | _ => false end.

Definition brings_player_mappings (d : Handshake) : bool :=
  match d with player_mappings_arrive _ => true | _ => false end.

(* each of the three payloads has arrived at least once *)
Definition all_arrived (ds : list Handshake) : bool :=
  existsb brings_match_settings ds
  && existsb brings_field_info ds
  && existsb brings_player_mappings ds.

Definition is_call_initialize (e : Effect) : bool :=
  match e with call_initialize => true | _ => false end.

(* how often the initialization hook was called *)
Definition init_calls (es : list Effect) : nat :=
  length (List.filter is_call_initialize es).

(* the one-shot transition has been made exactly if the three flags are up *)
Definition converged (h : Hivemind) : Prop :=
  _initialized_bot h
  = _has_match_settings h && _has_field_info h && _has_player_mapping h.

(* the controllables that a run of deliveries brings, in order of arrival *)
Definition mapped_controllables (ds : list Handshake) : list ControllableInfo :=
  flat_map (fun d =>
              match d with
              | player_mappings_arrive x => controllables x
              | _ => []
              end) ds.

(* the roster after the loop of [_handle_player_mappings] over [cs] *)
Definition roster_with_controllables (cs : list ControllableInfo) (c : Roster)
  : Roster :=
  {| loggers := loggers c;
     indices := indices c ++ map controllable_index cs;
     names := names c;
     spawn_ids := spawn_ids c ++ map controllable_spawn_id cs |}.

(* the frame once a handler has stored its payload and set its flag *)
Definition stored (d : Handshake) (f : Frame) : Frame :=
  match d with
  | match_settings_arrives x =>
      {| cls := cls f;
         self := set__has_match_settings true (set_match_settings x (self f));
         out := out f |}
  | field_info_arrives x =>
      {| cls := cls f;
         self := set__has_field_info true (set_field_info x (self f));
         out := out f |}
  | player_mappings_arrive x =>
      {| cls := roster_with_controllables (controllables x) (cls f);
         self := set__has_player_mapping true
                   (set_team (controllables_team x) (self f));
         out := out f |}
  end.

(* the test a handler makes on the two flags that are not its own *)
Definition others_ready (d : Handshake) (h : Hivemind) : bool :=
  match d with
  | match_settings_arrives _ => _has_field_info h && _has_player_mapping h
  | field_info_arrives _ => _has_match_settings h && _has_player_mapping h
  | player_mappings_arrive _ => _has_match_settings h && _has_field_info h
  end.

(* the player configurations whose spawn id the roster has *)
Definition ours (c : Roster) (pcs : list PlayerConfiguration)
  : list PlayerConfiguration :=
  List.filter (fun player => bool_decide (spawn_id player ∈ spawn_ids c)) pcs.

(* the roster after the loop of [_initialize] over [pcs] *)
Definition roster_with_names (pcs : list PlayerConfiguration) (c : Roster)
  : Roster :=
  {| loggers := loggers c ++ map name (ours c pcs);
     indices := indices c;
     names := names c ++ map name (ours c pcs);
     spawn_ids := spawn_ids c |}.

(* the greatest roster index: what a frame needs one entry more than *)
Definition highest_index (c : Roster) : option Z := max_of (indices c).

(* the calls of [get_outputs] among the effects, with their frames *)
Definition frames_given_to_get_outputs (es : list Effect) : list GameTickPacket :=
  flat_map (fun e =>
              match e with
              | call_get_outputs packet => [packet]
              | _ => []
              end) es.

Definition is_relay_send_player_input (e : Effect) : bool :=
  match e with relay_send_player_input _ => true | _ => false end.

(* the entries of the outputs up to the first whose index does not fit *)
Fixpoint sendable (controller : list (Z * ControllerState))
  : list (Z * ControllerState) :=
  match controller with
  | [] => []
  | entry :: rest =>
      if fits_uint32 entry.1 then entry :: sendable rest else []
  end.

Definition all_fit (controller : list (Z * ControllerState)) : bool :=
  forallb (fun entry => fits_uint32 entry.1) controller.

(* the message [_packet_processor] sends for one entry of the outputs *)
Definition input_message (entry : Z * ControllerState) : Effect :=
  relay_send_player_input
    {| player_index := entry.1; controller_state := entry.2 |}.

(* a controller right after [Hivemind()] in a new process *)
Definition Frame_start : Frame :=
  frame_of (__init__ (Some "hive")
              {| cls := Roster_initial; self := Hivemind_blank; out := [] |}).

(* a frame with the mailbox set to [slot] *)
Definition with_mailbox (slot : option GameTickPacket) (f : Frame) : Frame :=
  {| cls := cls f; self := set__latest_packet slot (self f); out := out f |}.

(* the frame with the prediction snapshot taken, as [get_outputs] sees it *)
Definition snapshot (f : Frame) : Hivemind :=
  set_ball_prediction (_latest_prediction (self f)) (self f).

(* one controlled unit, and two that arrive out of index order *)
Definition one_unit : TeamControllables :=
  {| controllables_team := 0;
     controllables :=
       [{| controllable_spawn_id := 10; controllable_index := 0 |}] |}.

Definition two_units_unordered : TeamControllables :=
  {| controllables_team := 0;
     controllables :=
       [{| controllable_spawn_id := 50; controllable_index := 5 |};
        {| controllable_spawn_id := 20; controllable_index := 2 |}] |}.

(* the controller after [_handle_player_mappings] on either *)
Definition Frame_one_unit : Frame :=
  frame_of (@deliver Hivemind_base (player_mappings_arrive one_unit) Frame_start).

Definition Frame_unordered : Frame :=
  frame_of (@deliver Hivemind_base (player_mappings_arrive two_units_unordered)
              Frame_start).

(* the frame numbered [n], with [count] players *)
Definition frame_numbered (n : Z) (count : nat) : GameTickPacket :=
  {| players := repeat {| player_info_payload := 0 |} count; frame_num := n |}.

(* the relay as [__init__] leaves it *)
Definition relay_after_init (group_id : string) : SocketRelay :=
  {| relay_group_id := group_id;
     match_settings_handlers := [bound__handle_match_settings];
     field_info_handlers := [bound__handle_field_info];
     player_mapping_handlers := [];
     match_communication_handlers := [bound__handle_match_communication];
     ball_prediction_handlers := [bound__handle_ball_prediction];
     packet_handlers := [bound__handle_packet] |}.

(* the instance as [__init__] leaves it *)
Definition constructed (group_id : string) (h : Hivemind) : Hivemind :=
  set_renderer (Some Rendering.new)
    (set__game_interface (Some (relay_after_init group_id)) h).

(* match settings that list the two units by ascending index, and the one *)
Definition settings_two : MatchSettings :=
  {| player_configurations :=
       [{| name := "low"; spawn_id := 20 |};
        {| name := "high"; spawn_id := 50 |}] |}.

Definition settings_one : MatchSettings :=
  {| player_configurations := [{| name := "solo"; spawn_id := 10 |}] |}.

(* what the spec asks of the sequence sent for a sparse mapping: nothing for
   an empty mapping; otherwise, with [max_key] the greatest key, max_key + 1
   entries, the one at [i] being the mapping's value at [i] where it has
   one and the blank state elsewhere *)
Definition dense_from {V} (blank : V) (d : gmap Z V) (sent : option (list V))
  : Prop :=
  (d = ∅ → sent = None)
  ∧ (d ≠ ∅ →
     ∃ max_key l,
       sent = Some l
       ∧ is_Some (d !! max_key)
       ∧ (∀ k, is_Some (d !! k) → k ≤ max_key)
       ∧ length l = Z.to_nat (max_key + 1)
       ∧ ∀ i, 0 ≤ i ≤ max_key → l !! Z.to_nat i = Some (default blank (d !! i))).

(* a ball state that is not the default one *)
Definition ball_placed : DesiredBallState := {| desired_ball_physics := Some 7 |}.

(** *** Two controllers to run the methods with *)

(* fails on the frames numbered 0, answers the others for unit 0 *)
Definition Flaky : Bot :=
  {| initialize := fun _ _ => returned tt;
     get_outputs := fun _ _ packet =>
       if frame_num packet =? 0 then raised (UserError "no plan")
       else returned [(0, {| controller_state_payload := frame_num packet |})];
     handle_match_communication := fun _ _ _ _ _ _ _ => returned tt |}.

(* its initialization fails *)
Definition Unready : Bot :=
  {| initialize := fun _ _ => raised (UserError "not ready");
     get_outputs := fun _ _ _ => returned [];
     handle_match_communication := fun _ _ _ _ _ _ _ => returned tt |}.

(** *** Vocabulary of the properties of runs *)

Definition is_relay_send_init_complete (e : Effect) : bool :=
  match e with relay_send_init_complete => true | _ => false end.

(* how often the relay was told that initialization is complete *)
Definition init_completions (es : list Effect) : nat :=
  length (List.filter is_relay_send_init_complete es).

Definition is_error_record (e : Effect) : bool :=
  match e with log_error _ _ => true | _ => false end.

(* the payload of each kind that a run of deliveries leaves stored, over
   what was stored before *)
Definition latest_match_settings (x0 : MatchSettings) (ds : list Handshake)
  : MatchSettings :=
  foldl (fun x d => match d with match_settings_arrives y => y | _ => x end)
        x0 ds.

Definition latest_field_info (x0 : FieldInfo) (ds : list Handshake)
  : FieldInfo :=
  foldl (fun x d => match d with field_info_arrives y => y | _ => x end) x0 ds.

Definition latest_team (x0 : Z) (ds : list Handshake) : Z :=
  foldl (fun x d =>
           match d with
           | player_mappings_arrive y => controllables_team y
           | _ => x
           end) x0 ds.

(* a frame with the latest prediction set to [bp] *)
Definition with_prediction (bp : BallPrediction) (f : Frame) : Frame :=
  {| cls := cls f; self := set__latest_prediction bp (self f); out := out f |}.

(* the frames that pass the test at the head of [_packet_processor] *)
Definition passes (last_index : Z) (packet : GameTickPacket) : bool :=
  negb (Z.of_nat (length (players packet)) <=? last_index).

Definition ends_would_block (p : Poll) : bool :=
  match poll_end p with would_block => true | finished => false end.

(* a controller that is interrupted while it computes its outputs *)
Definition Interrupted : Bot :=
  {| initialize := fun _ _ => returned tt;
     get_outputs := fun _ _ _ => raised KeyboardInterrupt;
     handle_match_communication := fun _ _ _ _ _ _ _ => returned tt |}.

(* a controller that answers for unit 0 and for a unit numbered -1 *)
Definition Misaddressed : Bot :=
  {| initialize := fun _ _ => returned tt;
     get_outputs := fun _ _ _ =>
       returned [(0, {| controller_state_payload := 1 |});
                 (-1, {| controller_state_payload := 2 |});
                 (0, {| controller_state_payload := 3 |})];
     handle_match_communication := fun _ _ _ _ _ _ _ => returned tt |}.

(* the guard of a handler is met: [_initialize] runs on this delivery *)
Definition fires (d : Handshake) (h : Hivemind) : bool :=
  negb (_initialized_bot h) && others_ready d h.

End Hive.

(** * Properties *)

(** ** The render batcher *)
Module RenderingFacts.
Import Rendering.

Lemma get_group_id_range (secret : PyHash.Secret) (name : string) :
  0 ≤ _get_group_id secret name < MAX_INT.
Proof.
  unfold _get_group_id. apply Z.mod_pos_bound. reflexivity.
Qed.

Lemma begin_rendering_closed (secret : PyHash.Secret) (name : string)
    (r : RenderingManager) :
  group_id r = None →
  begin_rendering secret name r =
    ({| used_group_ids := {[_get_group_id secret name]} ∪ used_group_ids r;
        group_id := Some (_get_group_id secret name);
        current_renders := current_renders r |}, []).
Proof. intros Hr. unfold begin_rendering. rewrite Hr. reflexivity. Qed.

Lemma draw_appends (c : DrawCall) (r : RenderingManager) :
  draw c r = (append_render (descriptor c) r, []).
Proof. destruct c; reflexivity. Qed.

Lemma draw_all_appends (cs : list DrawCall) (r : RenderingManager) :
  draw_all cs r =
    ({| used_group_ids := used_group_ids r;
        group_id := group_id r;
        current_renders := current_renders r ++ map descriptor cs |}, []).
Proof.
  revert r. induction cs as [|c cs IH]; intros r; simpl.
  - rewrite app_nil_r. destruct r; reflexivity.
  - rewrite draw_appends, IH. simpl. rewrite <- app_assoc. reflexivity.
Qed.

(** C2, as the code has it: inside one process, that is under one hash
    secret, opening a batch under a name gives the same id on any two
    managers, namely [_get_group_id] of the name, a number from 0 up to
    [MAX_INT] excluded. *)
Theorem group_id_same_within_process (secret : PyHash.Secret) (name : string)
    (r1 r2 : RenderingManager) :
  group_id r1 = None →
  group_id r2 = None →
  group_id (begin_rendering secret name r1).1 = Some (_get_group_id secret name)
  ∧ group_id (begin_rendering secret name r2).1
    = group_id (begin_rendering secret name r1).1
  ∧ 0 ≤ _get_group_id secret name < MAX_INT.
Proof.
  intros H1 H2.
  rewrite (begin_rendering_closed _ _ _ H1), (begin_rendering_closed _ _ _ H2).
  simpl. split; [reflexivity|]. split; [reflexivity|].
  apply get_group_id_range.
Qed.

Lemma group_id_same_within_process_witness :
  group_id new = None
  ∧ (group_id (begin_rendering (PyHash.secret_of_seed 1) "default" new).1
     = Some (_get_group_id (PyHash.secret_of_seed 1) "default")
     ∧ group_id (begin_rendering (PyHash.secret_of_seed 1) "default" new).1
       = group_id (begin_rendering (PyHash.secret_of_seed 1) "default" new).1
     ∧ 0 ≤ _get_group_id (PyHash.secret_of_seed 1) "default" < MAX_INT).
Proof.
  split; [reflexivity|].
  apply (group_id_same_within_process (PyHash.secret_of_seed 1) "default"
           new new); reflexivity.
Defined.

(** C2, as the specification has it, fails: the processes started with
    PYTHONHASHSEED=0 and PYTHONHASHSEED=1 give the name "default" two
    different ids. *)
Lemma group_id_differs_across_processes :
  _get_group_id (PyHash.secret_of_seed 0) "default"
  ≠ _get_group_id (PyHash.secret_of_seed 1) "default".
Proof. vm_compute. discriminate. Qed.

(** C10: a draw call made while no batch is open logs nothing and appends
    its descriptor to the pending renders; the batch that is opened and
    closed next sends it, ahead of what was drawn inside the batch. *)
Theorem draw_without_open_batch_is_buffered (secret : PyHash.Secret)
    (r : RenderingManager) (c : DrawCall) (name : string)
    (cs : list DrawCall) :
  group_id r = None →
  let '(r1, e1) := draw c r in
  e1 = []
  ∧ group_id r1 = None
  ∧ current_renders r1 = current_renders r ++ [descriptor c]
  ∧ let '(r2, e2) := begin_rendering secret name r1 in
    let '(r3, e3) := draw_all cs r2 in
    e2 = [] ∧ e3 = []
    ∧ (end_rendering r3).2 =
        [send_render_group
           {| render_messages :=
                current_renders r ++ [descriptor c] ++ map descriptor cs;
              id := _get_group_id secret name |}].
Proof.
  intros Hr. rewrite draw_appends.
  split; [reflexivity|]. split; [exact Hr|]. split; [reflexivity|].
  rewrite begin_rendering_closed by exact Hr.
  rewrite draw_all_appends. simpl.
  split; [reflexivity|]. split; [reflexivity|].
  unfold end_rendering. simpl. rewrite <- app_assoc. reflexivity.
Qed.

Lemma draw_without_open_batch_is_buffered_witness :
  group_id new = None
  ∧ (end_rendering
       (begin_rendering (PyHash.secret_of_seed 0) "x"
          (draw_line_3d {| line3d_payload := 7 |} new).1).1).2
    = [send_render_group
         {| render_messages :=
              [{| variety := line_3_d {| line3d_payload := 7 |} |}];
            id := _get_group_id (PyHash.secret_of_seed 0) "x" |}].
Proof.
  split; [reflexivity|].
  pose proof (draw_without_open_batch_is_buffered (PyHash.secret_of_seed 0) new
                (call_draw_line_3d {| line3d_payload := 7 |}) "x" []
                eq_refl) as H.
  simpl in H. destruct H as (_ & _ & _ & _ & _ & H). exact H.
Defined.

End RenderingFacts.

(** ** The controller *)
Module HiveFacts.
Import Hive.
Local Open Scope hive_scope.

Section WithBot.
Context {bot : Bot}.

(** *** The two loops in closed form *)

Lemma player_mappings_loop (cs : list ControllableInfo) (f : Frame) :
  for_each cs (fun controllable =>
    update_cls (append_spawn_id (controllable_spawn_id controllable)) ;;
    update_cls (append_index (controllable_index controllable))) f
  = Returns tt {| cls := roster_with_controllables cs (cls f);
                  self := self f; out := out f |}.
Proof.
  revert f. induction cs as [|c cs IH]; intros [c0 h es]; simpl.
  - unfold ret, roster_with_controllables. simpl.
    rewrite !app_nil_r. destruct c0; reflexivity.
  - unfold bind at 1. unfold bind at 1. simpl. rewrite IH.
    unfold roster_with_controllables. simpl.
    rewrite <- !app_assoc. reflexivity.
Qed.

Lemma names_loop (pcs : list PlayerConfiguration) (f : Frame) :
  for_each pcs (fun player =>
    c <- get_cls ;;
    if bool_decide (spawn_id player ∈ spawn_ids c) then
      update_cls (append_name (name player)) ;;
      update_cls (append_logger (name player))
    else ret tt) f
  = Returns tt {| cls := roster_with_names pcs (cls f);
                  self := self f; out := out f |}.
Proof.
  revert f. induction pcs as [|p pcs IH]; intros [c0 h es]; simpl.
  - unfold ret, roster_with_names. simpl.
    rewrite !app_nil_r. destruct c0; reflexivity.
  - unfold bind at 1. unfold bind at 1. simpl.
    unfold roster_with_names, ours. simpl.
    destruct (bool_decide (spawn_id p ∈ spawn_ids c0)) eqn:E.
    + unfold bind at 1. simpl. rewrite IH.
      unfold roster_with_names, ours. simpl.
      rewrite <- !app_assoc. reflexivity.
    + unfold ret. rewrite IH. reflexivity.
Qed.

(** *** [_initialize] and the three handlers in closed form *)

Lemma initialize_outcome (f : Frame) :
  _initialize f =
    let c1 :=
      roster_with_names (player_configurations (match_settings (self f)))
        (cls f) in
    match initialize c1 (self f) with
    | returned _ =>
        Returns tt {| cls := c1;
                      self := set__initialized_bot true (self f);
                      out := (out f ++ [call_initialize])
                               ++ [relay_send_init_complete] |}
    | raised e =>
        if is_Exception e then
          Raises (SystemExit None)
            {| cls := c1; self := self f;
               out := ((out f ++ [call_initialize])
                         ++ [log_critical
                               "Hivemind %s failed to initialize due the following error: %s"
                               [arg_str match names c1 with
                                        | [] => "Unknown"
                                        | n :: _ => n
                                        end;
                                arg_exn e]])
                        ++ [print_exc] |}
        else
          Raises e {| cls := c1; self := self f;
                      out := out f ++ [call_initialize] |}
    end.
Proof.
  unfold _initialize. unfold bind at 1. unfold get_self at 1.
  unfold bind at 1. rewrite names_loop.
  unfold bind at 1. unfold try_except_Exception, call_hook.
  unfold bind at 1. simpl.
  destruct (initialize _ _) as [[]|e]; simpl.
  - reflexivity.
  - destruct (is_Exception e); reflexivity.
Qed.

Lemma handle_match_settings_outcome (x : MatchSettings) (f : Frame) :
  _handle_match_settings x f =
    let f1 := {| cls := cls f;
                 self := set__has_match_settings true
                           (set_match_settings x (self f));
                 out := out f |} in
    if negb (_initialized_bot (self f)) && _has_field_info (self f)
       && _has_player_mapping (self f)
    then _initialize f1 else Returns tt f1.
Proof.
  unfold _handle_match_settings, bind, update_self, get_self. simpl.
  destruct (negb _ && _ && _); reflexivity.
Qed.

Lemma handle_field_info_outcome (x : FieldInfo) (f : Frame) :
  _handle_field_info x f =
    let f1 := {| cls := cls f;
                 self := set__has_field_info true (set_field_info x (self f));
                 out := out f |} in
    if negb (_initialized_bot (self f)) && _has_match_settings (self f)
       && _has_player_mapping (self f)
    then _initialize f1 else Returns tt f1.
Proof.
  unfold _handle_field_info, bind, update_self, get_self. simpl.
  destruct (negb _ && _ && _); reflexivity.
Qed.

Lemma handle_player_mappings_outcome (x : TeamControllables) (f : Frame) :
  _handle_player_mappings x f =
    let f1 := {| cls := roster_with_controllables (controllables x) (cls f);
                 self := set__has_player_mapping true
                           (set_team (controllables_team x) (self f));
                 out := out f |} in
    if negb (_initialized_bot (self f)) && _has_match_settings (self f)
       && _has_field_info (self f)
    then _initialize f1 else Returns tt f1.
Proof.
  unfold _handle_player_mappings. unfold bind at 1. unfold update_self at 1.
  unfold bind at 1. rewrite player_mappings_loop.
  unfold bind, update_self, get_self. simpl.
  destruct (negb _ && _ && _); reflexivity.
Qed.

Lemma init_calls_app (es1 es2 : list Effect) :
  init_calls (es1 ++ es2) = (init_calls es1 + init_calls es2)%nat.
Proof. unfold init_calls. rewrite List.filter_app, length_app. reflexivity. Qed.

Lemma deliver_outcome (d : Handshake) (f : Frame) :
  deliver d f =
    if negb (_initialized_bot (self f)) && others_ready d (self f)
    then _initialize (stored d f) else Returns tt (stored d f).
Proof.
  destruct d; simpl.
  - rewrite handle_match_settings_outcome. simpl.
    rewrite <- andb_assoc. reflexivity.
  - rewrite handle_field_info_outcome. simpl.
    rewrite <- andb_assoc. reflexivity.
  - rewrite handle_player_mappings_outcome. simpl.
    rewrite <- andb_assoc. reflexivity.
Qed.

(** *** The handshake *)

Lemma stored_flags (d : Handshake) (f : Frame) :
  _has_match_settings (self (stored d f))
    = _has_match_settings (self f) || brings_match_settings d
  ∧ _has_field_info (self (stored d f))
    = _has_field_info (self f) || brings_field_info d
  ∧ _has_player_mapping (self (stored d f))
    = _has_player_mapping (self f) || brings_player_mappings d
  ∧ _initialized_bot (self (stored d f)) = _initialized_bot (self f)
  ∧ out (stored d f) = out f.
Proof.
  destruct d; simpl; rewrite ?orb_false_r, ?orb_true_r; repeat split.
Qed.

Lemma initialize_returns_or_raises (f : Frame) :
  (∃ g, _initialize f = Returns tt g
        ∧ self g = set__initialized_bot true (self f)
        ∧ out g = out f ++ [call_initialize; relay_send_init_complete])
  ∨ (∃ e g es, _initialize f = Raises e g
        ∧ self g = self f
        ∧ out g = out f ++ call_initialize :: es
        ∧ init_calls es = 0%nat).
Proof.
  rewrite initialize_outcome. cbv zeta.
  destruct (initialize _ _) as [[]|e].
  - left. eexists. split; [reflexivity|]. simpl.
    rewrite <- app_assoc. split; reflexivity.
  - right. destruct (is_Exception e).
    + do 3 eexists. split; [reflexivity|]. simpl.
      rewrite <- !app_assoc. simpl. split; [reflexivity|].
      split; reflexivity.
    + exists e. eexists. exists []. split; [reflexivity|]. simpl.
      split; [reflexivity|]. split; reflexivity.
Qed.

Lemma deliver_step (d : Handshake) (f : Frame) :
  converged (self f) →
  match deliver d f with
  | Returns _ g =>
      converged (self g)
      ∧ _has_match_settings (self g)
        = _has_match_settings (self f) || brings_match_settings d
      ∧ _has_field_info (self g)
        = _has_field_info (self f) || brings_field_info d
      ∧ _has_player_mapping (self g)
        = _has_player_mapping (self f) || brings_player_mappings d
      ∧ init_calls (out g)
        = (init_calls (out f)
           + if negb (_initialized_bot (self f)) && _initialized_bot (self g)
             then 1 else 0)%nat
  | Raises _ g =>
      _initialized_bot (self f) = false
      ∧ (_has_match_settings (self f) || brings_match_settings d)
        && (_has_field_info (self f) || brings_field_info d)
        && (_has_player_mapping (self f) || brings_player_mappings d) = true
      ∧ init_calls (out g) = (init_calls (out f) + 1)%nat
  end.
Proof.
  intros Hc. rewrite deliver_outcome.
  destruct (stored_flags d f) as (Hms & Hfi & Hpm & Hr & Ho).
  unfold converged in *.
  destruct (negb (_initialized_bot (self f)) && others_ready d (self f)) eqn:E.
  - destruct (initialize_returns_or_raises (stored d f))
      as [(g & -> & Hs & Hout) | (e & g & es & -> & Hs & Hout & Hes)].
    + rewrite Hs, Hout, Ho, init_calls_app. simpl.
      rewrite Hms, Hfi, Hpm.
      destruct d; simpl in *;
        destruct (_initialized_bot (self f)), (_has_match_settings (self f)),
          (_has_field_info (self f)), (_has_player_mapping (self f));
        simpl in *; try discriminate; repeat split.
    + rewrite Hout, Ho, init_calls_app. simpl.
      unfold init_calls in *. simpl. rewrite Hes.
      destruct d; simpl in *;
        destruct (_initialized_bot (self f)), (_has_match_settings (self f)),
          (_has_field_info (self f)), (_has_player_mapping (self f));
        simpl in *; try discriminate; repeat split.
  - rewrite Hms, Hfi, Hpm, Hr, Ho.
    destruct d; simpl in *;
      destruct (_initialized_bot (self f)), (_has_match_settings (self f)),
        (_has_field_info (self f)), (_has_player_mapping (self f));
      simpl in *; try discriminate; repeat split; lia.
Qed.

Lemma deliver_all_cons (d : Handshake) (ds : list Handshake) (f : Frame) :
  deliver_all (d :: ds) f =
    match deliver d f with
    | Returns _ g => deliver_all ds g
    | Raises e g => Raises e g
    end.
Proof. reflexivity. Qed.

Lemma deliver_all_app (ds ds' : list Handshake) (f : Frame) :
  deliver_all (ds ++ ds') f =
    match deliver_all ds f with
    | Returns _ g => deliver_all ds' g
    | Raises e g => Raises e g
    end.
Proof.
  revert f. induction ds as [|d ds IH]; intros f.
  - reflexivity.
  - simpl app. rewrite !deliver_all_cons.
    destruct (deliver d f) as [u g|e g]; [apply IH|reflexivity].
Qed.

Lemma deliver_all_counts (ds : list Handshake) (f : Frame) :
  converged (self f) →
  match deliver_all ds f with
  | Returns _ g =>
      converged (self g)
      ∧ _has_match_settings (self g)
        = _has_match_settings (self f) || existsb brings_match_settings ds
      ∧ _has_field_info (self g)
        = _has_field_info (self f) || existsb brings_field_info ds
      ∧ _has_player_mapping (self g)
        = _has_player_mapping (self f) || existsb brings_player_mappings ds
      ∧ init_calls (out g)
        = (init_calls (out f)
           + if negb (_initialized_bot (self f)) && _initialized_bot (self g)
             then 1 else 0)%nat
  | Raises _ g =>
      _initialized_bot (self f) = false
      ∧ (_has_match_settings (self f) || existsb brings_match_settings ds)
        && (_has_field_info (self f) || existsb brings_field_info ds)
        && (_has_player_mapping (self f) || existsb brings_player_mappings ds)
        = true
      ∧ init_calls (out g) = (init_calls (out f) + 1)%nat
  end.
Proof.
  revert f. induction ds as [|d ds IH]; intros f Hc.
  - simpl. rewrite !orb_false_r. repeat split; [exact Hc|].
    destruct (_initialized_bot (self f)); simpl; lia.
  - rewrite deliver_all_cons.
    pose proof (deliver_step d f Hc) as Hd.
    destruct (deliver d f) as [u g|e g].
    + destruct Hd as (Hg & Hms & Hfi & Hpm & Hn).
      specialize (IH g Hg).
      destruct (deliver_all ds g) as [u' g'|e' g'].
      * destruct IH as (Hg' & Hms' & Hfi' & Hpm' & Hn').
        rewrite Hms', Hfi', Hpm', Hn', Hms, Hfi, Hpm, Hn. simpl.
        rewrite <- !orb_assoc.
        split; [exact Hg'|]. repeat split.
        unfold converged in *.
        rewrite Hms', Hfi', Hpm', Hms, Hfi, Hpm in Hg'.
        rewrite Hms, Hfi, Hpm in Hg.
        destruct (_initialized_bot (self f)), (_initialized_bot (self g)),
          (_initialized_bot (self g'));
          simpl in *; try lia;
          destruct (_has_match_settings (self f)),
            (_has_field_info (self f)), (_has_player_mapping (self f)),
            (brings_match_settings d), (brings_field_info d),
            (brings_player_mappings d);
          simpl in *; discriminate.
      * destruct IH as (Hr & Hall & Hn').
        rewrite Hn', Hn, Hr. simpl.
        rewrite Hms, Hfi, Hpm, <- !orb_assoc in Hall.
        unfold converged in *. rewrite Hr, Hms, Hfi, Hpm in Hg.
        rewrite Hall. rewrite andb_false_r.
        destruct (_initialized_bot (self f)) eqn:Hf; [|split; [reflexivity|split; [reflexivity|lia]]].
        destruct (_has_match_settings (self f)),
          (_has_field_info (self f)), (_has_player_mapping (self f));
          simpl in *; discriminate.
    + destruct Hd as (Hr & Hall & Hn).
      split; [exact Hr|]. split; [|exact Hn]. simpl.
      destruct (_has_match_settings (self f)),
        (_has_field_info (self f)), (_has_player_mapping (self f)),
        (brings_match_settings d), (brings_field_info d),
        (brings_player_mappings d);
        simpl in *; try discriminate; reflexivity.
Qed.

Lemma deliver_extends (d : Handshake) (f : Frame) :
  ∃ es, out (frame_of (deliver d f)) = out f ++ es.
Proof.
  rewrite deliver_outcome.
  destruct (stored_flags d f) as (_ & _ & _ & _ & Ho).
  destruct (negb _ && _).
  - destruct (initialize_returns_or_raises (stored d f))
      as [(g & -> & _ & Hout) | (e & g & es & -> & _ & Hout & _)];
      simpl; rewrite Hout, Ho; eauto.
  - simpl. rewrite Ho. exists []. rewrite app_nil_r. reflexivity.
Qed.

Lemma deliver_all_extends (ds : list Handshake) (f : Frame) :
  ∃ es, out (frame_of (deliver_all ds f)) = out f ++ es.
Proof.
  revert f. induction ds as [|d ds IH]; intros f.
  - exists []. simpl. rewrite app_nil_r. reflexivity.
  - rewrite deliver_all_cons.
    destruct (deliver_extends d f) as [es1 H1].
    destruct (deliver d f) as [u g|e g]; simpl in H1.
    + destruct (IH g) as [es2 H2]. rewrite H2, H1, <- app_assoc. eauto.
    + simpl. eauto.
Qed.

Lemma deliver_when_ready (d : Handshake) (f : Frame) :
  _initialized_bot (self f) = true →
  deliver d f = Returns tt (stored d f).
Proof. intros Hr. rewrite deliver_outcome, Hr. reflexivity. Qed.

(** C1: from a controller whose flags are all down, whatever payloads
    arrive in whatever order and however often, [initialize] has been called
    once if each of the three kinds has arrived and not at all otherwise;
    as this holds after every delivery, and effects are only ever added,
    the one call is made by the delivery that completes the three.  When the
    run returns, the flags say what has arrived and [_initialized_bot] is up
    exactly if all three are.  Once [_initialized_bot] is up, a delivery
    returns, leaves it up and lets nothing out. *)
Theorem initialization_fires_once (f : Frame) (ds : list Handshake) :
  _initialized_bot (self f) = false →
  _has_match_settings (self f) = false →
  _has_field_info (self f) = false →
  _has_player_mapping (self f) = false →
  init_calls (out (frame_of (deliver_all ds f)))
  = (init_calls (out f) + if all_arrived ds then 1 else 0)%nat
  ∧ (∀ ds', ∃ es,
       out (frame_of (deliver_all (ds ++ ds') f))
       = out (frame_of (deliver_all ds f)) ++ es)
  ∧ (∀ u g, deliver_all ds f = Returns u g →
       _has_match_settings (self g) = existsb brings_match_settings ds
       ∧ _has_field_info (self g) = existsb brings_field_info ds
       ∧ _has_player_mapping (self g) = existsb brings_player_mappings ds
       ∧ _initialized_bot (self g) = all_arrived ds)
  ∧ (∀ d g, _initialized_bot (self g) = true →
       ∃ g', deliver d g = Returns tt g'
             ∧ _initialized_bot (self g') = true
             ∧ out g' = out g).
Proof.
  intros Hr Hms Hfi Hpm.
  assert (Hc : converged (self f)).
  { unfold converged. rewrite Hr, Hms. reflexivity. }
  pose proof (deliver_all_counts ds f Hc) as H.
  rewrite Hr, Hms, Hfi, Hpm in H. simpl in H.
  split; [|split; [|split]].
  - destruct (deliver_all ds f) as [u g|e g]; simpl.
    + destruct H as (Hg & Hms' & Hfi' & Hpm' & Hn).
      rewrite Hn. unfold converged in Hg. rewrite Hg, Hms', Hfi', Hpm'.
      reflexivity.
    + destruct H as (_ & Hall & Hn). rewrite Hn.
      unfold all_arrived. rewrite Hall. reflexivity.
  - intros ds'. rewrite deliver_all_app.
    destruct (deliver_all ds f) as [u g|e g]; simpl.
    + apply deliver_all_extends.
    + exists []. rewrite app_nil_r. reflexivity.
  - intros u g E. rewrite E in H.
    destruct H as (Hg & Hms' & Hfi' & Hpm' & _).
    unfold converged in Hg. rewrite Hg, Hms', Hfi', Hpm'.
    repeat split.
  - intros d g Hg. exists (stored d g).
    destruct (stored_flags d g) as (_ & _ & _ & Hr' & Ho).
    split; [apply deliver_when_ready, Hg|]. rewrite Hr', Ho. split; [exact Hg|reflexivity].
Qed.

(** *** The packet processor in closed form *)

Lemma send_loop (controller : list (Z * ControllerState)) (f : Frame) :
  for_each controller (fun '(index, controller) =>
    player_input <- PlayerInput_new index controller ;;
    emit (relay_send_player_input player_input)) f
  = let g := {| cls := cls f; self := self f;
                out := out f ++ map input_message (sendable controller) |} in
    if all_fit controller then Returns tt g else Raises OverflowError g.
Proof.
  revert f. induction controller as [|[i c] l IH]; intros [c0 h es]; simpl.
  - rewrite app_nil_r. reflexivity.
  - unfold bind at 1. unfold bind at 1. unfold PlayerInput_new. simpl.
    destruct (fits_uint32 i); simpl.
    + rewrite IH. simpl. rewrite <- app_assoc. reflexivity.
    + rewrite app_nil_r. reflexivity.
Qed.

Lemma all_fit_sendable (controller : list (Z * ControllerState)) :
  all_fit controller = true → sendable controller = controller.
Proof.
  induction controller as [|entry l IH]; simpl; [reflexivity|].
  destruct (fits_uint32 entry.1); simpl; [|discriminate].
  intros H. rewrite (IH H). reflexivity.
Qed.

Lemma packet_processor_outcome (packet : GameTickPacket) (f : Frame) :
  _packet_processor packet f =
    match last (indices (cls f)) with
    | None => Raises IndexError f
    | Some last_index =>
        if Z.of_nat (length (players packet)) <=? last_index
        then Returns tt f
        else
          match get_outputs (cls f) (snapshot f) packet with
          | returned controller =>
              let g := {| cls := cls f; self := snapshot f;
                          out := (out f ++ [call_get_outputs packet])
                                 ++ map input_message (sendable controller) |} in
              if all_fit controller then Returns tt g
              else Raises OverflowError g
          | raised e =>
              if is_Exception e then
                Returns tt
                  {| cls := cls f; self := snapshot f;
                     out := ((out f ++ [call_get_outputs packet])
                               ++ [log_error
                                     "Hivemind (with %s) returned an error to RLBot: %s"
                                     [arg_names (names (cls f)); arg_exn e]])
                              ++ [print_exc] |}
              else
                Raises e
                  {| cls := cls f; self := snapshot f;
                     out := out f ++ [call_get_outputs packet] |}
          end
    end.
Proof.
  unfold _packet_processor. unfold bind at 1. unfold get_cls at 1.
  destruct (last (indices (cls f))) as [last_index|]; [|reflexivity].
  destruct (Z.of_nat (length (players packet)) <=? last_index).
  - destruct f; reflexivity.
  - unfold bind at 1. unfold get_self at 1.
    unfold bind at 1. unfold update_self at 1.
    unfold call_hook. unfold bind at 1. unfold emit at 1. simpl.
    unfold snapshot.
    destruct (get_outputs _ _ _) as [controller|e].
    + rewrite send_loop. reflexivity.
    + destruct (is_Exception e); reflexivity.
Qed.

(** *** Frames *)

Lemma all_fit_intro (controller : list (Z * ControllerState)) :
  (∀ index c, (index, c) ∈ controller → 0 ≤ index < 2 ^ 32) →
  all_fit controller = true.
Proof.
  intros H. unfold all_fit. apply forallb_forall.
  intros [index c] Hin. apply list_elem_of_In in Hin.
  specialize (H index c Hin). unfold fits_uint32. simpl.
  apply andb_true_intro. split; [apply Z.leb_le|apply Z.ltb_lt]; lia.
Qed.

(** C4: on a frame that passes the roster-size check, if [get_outputs]
    raises an exception, [_packet_processor] returns; what it lets out is
    the call, one error record that carries the units' names, and the
    traceback, so no player input is sent.  A later frame that passes the
    check and for which [get_outputs] answers, with unit indices that a
    player input can hold (unsigned 32-bit), is then processed in full:
    the call, then one input message per entry of the answer, in order. *)
Theorem failing_get_outputs_costs_one_tick (f : Frame)
    (packet : GameTickPacket) (last_index : Z) (e : exn) :
  last (indices (cls f)) = Some last_index →
  last_index < Z.of_nat (length (players packet)) →
  get_outputs (cls f) (snapshot f) packet = raised e →
  is_Exception e = true →
  ∃ g es,
    _packet_processor packet f = Returns tt g
    ∧ cls g = cls f
    ∧ out g = out f ++ es
    ∧ es = [call_get_outputs packet;
            log_error "Hivemind (with %s) returned an error to RLBot: %s"
              [arg_names (names (cls f)); arg_exn e];
            print_exc]
    ∧ List.filter is_relay_send_player_input es = []
    ∧ ∀ (packet' : GameTickPacket) (controller : list (Z * ControllerState)),
        last_index < Z.of_nat (length (players packet')) →
        get_outputs (cls g) (snapshot g) packet' = returned controller →
        (∀ index c, (index, c) ∈ controller → 0 ≤ index < 2 ^ 32) →
        ∃ g', _packet_processor packet' g = Returns tt g'
              ∧ out g' = out g ++ call_get_outputs packet'
                                    :: map input_message controller.
Proof.
  intros Hlast Hlen Hget He.
  rewrite packet_processor_outcome, Hlast.
  destruct (Z.leb_spec (Z.of_nat (length (players packet))) last_index) as [?|_];
    [lia|].
  rewrite Hget, He. do 2 eexists. split; [reflexivity|]. simpl.
  split; [reflexivity|]. split; [rewrite <- !app_assoc; reflexivity|].
  split; [reflexivity|]. split; [reflexivity|].
  intros packet' controller Hlen' Hget' Hfit.
  rewrite packet_processor_outcome. simpl. rewrite Hlast.
  destruct (Z.leb_spec (Z.of_nat (length (players packet'))) last_index) as [?|_];
    [lia|].
  rewrite Hget'. cbv zeta.
  rewrite (all_fit_intro controller Hfit).
  rewrite (all_fit_sendable controller (all_fit_intro controller Hfit)).
  eexists. split; [reflexivity|]. simpl.
  rewrite <- !app_assoc. reflexivity.
Qed.

(** C7, as the code has it: when the roster is not empty and the frame has
    no more players than the value of the last roster index,
    [_packet_processor] returns with everything as it was: nothing is let
    out (no log record, no input message, no call of [get_outputs]) and the
    prediction snapshot is not taken. *)
Theorem frame_not_beyond_last_index_is_dropped (f : Frame)
    (packet : GameTickPacket) (last_index : Z) :
  last (indices (cls f)) = Some last_index →
  Z.of_nat (length (players packet)) ≤ last_index →
  _packet_processor packet f = Returns tt f
  ∧ out (frame_of (_packet_processor packet f)) = out f
  ∧ ball_prediction (self (frame_of (_packet_processor packet f)))
    = ball_prediction (self f).
Proof.
  intros Hlast Hlen.
  rewrite packet_processor_outcome, Hlast.
  destruct (Z.leb_spec (Z.of_nat (length (players packet))) last_index) as [_|?];
    [|lia].
  repeat split.
Qed.

Lemma with_mailbox_twice (s1 s2 : option GameTickPacket) (f : Frame) :
  with_mailbox s2 (with_mailbox s1 f) = with_mailbox s2 f.
Proof. destruct f as [c h es]. destruct h. reflexivity. Qed.

Lemma no_get_outputs_among_inputs (controller : list (Z * ControllerState)) :
  frames_given_to_get_outputs (map input_message controller) = [].
Proof. induction controller as [|x l IH]; [reflexivity|exact IH]. Qed.

Lemma packet_processor_extends (packet : GameTickPacket) (f : Frame) :
  ∃ es, out (frame_of (_packet_processor packet f)) = out f ++ es
        ∧ frames_given_to_get_outputs es =
            match last (indices (cls f)) with
            | Some last_index =>
                if Z.of_nat (length (players packet)) <=? last_index
                then [] else [packet]
            | None => []
            end.
Proof.
  rewrite packet_processor_outcome.
  destruct (last (indices (cls f))) as [last_index|].
  - destruct (Z.of_nat (length (players packet)) <=? last_index).
    + exists []. simpl. rewrite app_nil_r. split; reflexivity.
    + destruct (get_outputs _ _ _) as [controller|e].
      * exists (call_get_outputs packet
                  :: map input_message (sendable controller)).
        cbv zeta. destruct (all_fit controller); simpl;
          rewrite <- app_assoc, no_get_outputs_among_inputs;
          (split; reflexivity).
      * destruct (is_Exception e); simpl; eexists;
          rewrite <- ?app_assoc; (split; [reflexivity|reflexivity]).
  - exists []. simpl. rewrite app_nil_r. split; reflexivity.
Qed.

(** C6: two frames written to the mailbox before it is drained leave the
    controller as the second alone would, with nothing let out, so the
    first is gone without a trace.  Draining then hands the second frame to
    [_packet_processor] and empties the mailbox; [get_outputs] is called
    for the second frame if it passes the roster check and for no frame
    otherwise, never for the first; a further drain finds the mailbox
    empty and only waits. *)
Theorem mailbox_keeps_latest_frame (f : Frame) (p1 p2 : GameTickPacket) :
  (_handle_packet p1 ;; _handle_packet p2) f
  = Returns tt (with_mailbox (Some p2) f)
  ∧ _handle_packet p2 f = Returns tt (with_mailbox (Some p2) f)
  ∧ drain (with_mailbox (Some p2) f)
    = match _packet_processor p2 (with_mailbox (Some p2) f) with
      | Returns _ g => Returns tt (with_mailbox None g)
      | Raises e g => Raises e g
      end
  ∧ (∃ es, out (frame_of (drain (with_mailbox (Some p2) f))) = out f ++ es
           ∧ frames_given_to_get_outputs es =
               match last (indices (cls f)) with
               | Some last_index =>
                   if Z.of_nat (length (players p2)) <=? last_index
                   then [] else [p2]
               | None => []
               end)
  ∧ (∀ u g, drain (with_mailbox (Some p2) f) = Returns u g →
       _latest_packet (self g) = None
       ∧ drain g = Returns tt {| cls := cls g; self := self g;
                                 out := out g ++ [setblocking true] |}).
Proof.
  assert (Hd : drain (with_mailbox (Some p2) f)
               = match _packet_processor p2 (with_mailbox (Some p2) f) with
                 | Returns _ g => Returns tt (with_mailbox None g)
                 | Raises e g => Raises e g
                 end).
  { unfold drain. unfold bind at 1. unfold get_self at 1.
    replace (_latest_packet (self (with_mailbox (Some p2) f))) with (Some p2)
      by (destruct f as [c h es]; reflexivity).
    unfold bind.
    destruct (_packet_processor p2 (with_mailbox (Some p2) f)); reflexivity. }
  split; [|split; [|split; [|split]]].
  - unfold bind, _handle_packet, update_self. simpl.
    destruct f as [c h es]. destruct h. reflexivity.
  - reflexivity.
  - exact Hd.
  - rewrite Hd.
    destruct (packet_processor_extends p2 (with_mailbox (Some p2) f))
      as (es & Hout & Hes).
    exists es. split; [|exact Hes].
    destruct (_packet_processor p2 (with_mailbox (Some p2) f)); exact Hout.
  - intros u g E. rewrite Hd in E.
    destruct (_packet_processor p2 (with_mailbox (Some p2) f)) as [u' g'|];
      [|discriminate].
    injection E as _ <-.
    split; [destruct g' as [c h es]; reflexivity|].
    unfold drain, bind, get_self.
    destruct g' as [c h es]. reflexivity.
Qed.

(** *** Construction *)

Lemma init_outcome (group_id : string) (f : Frame) :
  __init__ (Some group_id) f
  = Returns tt {| cls := cls f; self := constructed group_id (self f);
                  out := out f |}.
Proof. reflexivity. Qed.

(** C3, on the code: [__init__] with the group id set returns with a relay
    on which five lists hold one handler each (match settings, field info,
    match communication, ball prediction, packet) and the player-mapping
    list is empty: [_handle_player_mappings] is registered nowhere. *)
Theorem init_registers_five_handlers (group_id : string) (f : Frame) :
  ∃ r, __init__ (Some group_id) f
       = Returns tt {| cls := cls f;
                       self := set_renderer (Some Rendering.new)
                                 (set__game_interface (Some r) (self f));
                       out := out f |}
       ∧ match_settings_handlers r = [bound__handle_match_settings]
       ∧ field_info_handlers r = [bound__handle_field_info]
       ∧ match_communication_handlers r = [bound__handle_match_communication]
       ∧ ball_prediction_handlers r = [bound__handle_ball_prediction]
       ∧ packet_handlers r = [bound__handle_packet]
       ∧ player_mapping_handlers r = []
       ∧ bound__handle_player_mappings ∉ player_mapping_handlers r.
Proof.
  exists (relay_after_init group_id).
  split; [apply init_outcome|]. repeat split. simpl. apply not_elem_of_nil.
Qed.

(* what follows for a relay that dispatches by its lists: a player-mapping
   message reaches no handler, and the roster and the flag stay as they were *)
Lemma player_mappings_reach_no_handler (group_id : string) (f : Frame)
    (x : TeamControllables) :
  let g := frame_of (__init__ (Some group_id) f) in
  handle_incoming_messages
    {| arrived := [in_player_mappings x]; poll_end := finished |} g
  = Returns tt g.
Proof. reflexivity. Qed.

(** C9, on the code: two controllers constructed one after the other are two
    objects, and after the first receives a player-mapping payload the
    second one's [spawn_ids] and [indices] have grown by the payload's
    units: the lists are the class's, shared by both. *)
Theorem roster_lists_are_shared (w : Process) (group_a group_b : string)
    (x : TeamControllables) :
  ∃ w1 a w2 b w3 res,
    construct (Some group_a) w = (w1, Some a)
    ∧ construct (Some group_b) w1 = (w2, Some b)
    ∧ a ≠ b
    ∧ method_call a (_handle_player_mappings x) w2 = Some (w3, res)
    ∧ getattr_roster w2 b = Some (Hivemind_class w)
    ∧ spawn_ids <$> getattr_roster w3 b
      = Some (spawn_ids (Hivemind_class w)
                ++ map controllable_spawn_id (controllables x))
    ∧ indices <$> getattr_roster w3 b
      = Some (indices (Hivemind_class w)
                ++ map controllable_index (controllables x)).
Proof.
  set (a := fresh (dom (instances w))).
  set (ha := constructed group_a Hivemind_blank).
  set (w1 := leave a {| cls := Hivemind_class w; self := ha; out := stream w |} w).
  set (b := fresh (dom (instances w1))).
  set (hb := constructed group_b Hivemind_blank).
  set (w2 := leave b {| cls := Hivemind_class w1; self := hb; out := stream w1 |} w1).
  assert (Hab : a ≠ b).
  { intros E. pose proof (is_fresh (dom (instances w1))) as Hf.
    fold b in Hf. apply Hf. rewrite <- E. unfold w1, leave. simpl.
    rewrite dom_insert. set_solver. }
  assert (Hla : instances w2 !! a = Some ha).
  { unfold w2, leave. simpl. rewrite lookup_insert_ne by congruence.
    apply lookup_insert_eq. }
  exists w1, a, w2, b.
  pose proof (handle_player_mappings_outcome x (enter w2 ha)) as Hm.
  simpl in Hm.
  eexists. eexists.
  split; [unfold construct; rewrite init_outcome; reflexivity|].
  split; [unfold construct; rewrite init_outcome; reflexivity|].
  split; [exact Hab|].
  split.
  { unfold method_call. rewrite Hla. simpl. rewrite Hm. reflexivity. }
  split.
  { unfold getattr_roster, w2, leave. simpl. rewrite lookup_insert_eq.
    reflexivity. }
  split.
  - unfold getattr_roster, leave. simpl.
    rewrite lookup_insert_ne by congruence.
    unfold w2, leave. simpl. rewrite lookup_insert_eq. reflexivity.
  - unfold getattr_roster, leave. simpl.
    rewrite lookup_insert_ne by congruence.
    unfold w2, leave. simpl. rewrite lookup_insert_eq. reflexivity.
Qed.

(** *** The roster *)

Lemma stored_roster (d : Handshake) (f : Frame) :
  spawn_ids (cls (stored d f))
  = spawn_ids (cls f) ++ map controllable_spawn_id (mapped_controllables [d])
  ∧ indices (cls (stored d f))
    = indices (cls f) ++ map controllable_index (mapped_controllables [d])
  ∧ names (cls (stored d f)) = names (cls f)
  ∧ match_settings (self (stored d f))
    = match d with
      | match_settings_arrives x => x
      | _ => match_settings (self f)
      end.
Proof.
  destruct d; simpl; rewrite ?app_nil_r; repeat split.
Qed.

Lemma deliver_roster (d : Handshake) (f : Frame) :
  let g := frame_of (deliver d f) in
  (cls g = cls (stored d f)
   ∨ cls g = roster_with_names
               (player_configurations (match_settings (self (stored d f))))
               (cls (stored d f)))
  ∧ match_settings (self g) = match_settings (self (stored d f)).
Proof.
  cbv zeta. rewrite deliver_outcome.
  destruct (negb _ && _).
  - rewrite initialize_outcome. cbv zeta.
    destruct (initialize _ _) as [[]|e]; [|destruct (is_Exception e)];
      simpl; (split; [right; reflexivity|reflexivity]).
  - simpl. split; [left; reflexivity|reflexivity].
Qed.

Lemma ours_same_spawn_ids (c c' : Roster) (pcs : list PlayerConfiguration) :
  spawn_ids c' = spawn_ids c → ours c' pcs = ours c pcs.
Proof. intros E. unfold ours. rewrite E. reflexivity. Qed.

Lemma deliver_without_initialize (d : Handshake) (f : Frame) :
  fires d (self f) = false → deliver d f = Returns tt (stored d f).
Proof.
  intros Hf. rewrite deliver_outcome. unfold fires in Hf. rewrite Hf.
  reflexivity.
Qed.

Lemma deliver_with_initialize (d : Handshake) (f : Frame) :
  fires d (self f) = true →
  cls (frame_of (deliver d f))
  = roster_with_names
      (player_configurations (match_settings (self (stored d f))))
      (cls (stored d f))
  ∧ (∀ u g, deliver d f = Returns u g → _initialized_bot (self g) = true).
Proof.
  intros Hf. rewrite deliver_outcome. unfold fires in Hf. rewrite Hf.
  rewrite initialize_outcome. cbv zeta.
  destruct (initialize _ _) as [[]|e]; [|destruct (is_Exception e)]; simpl.
  - split; [reflexivity|]. intros u g H. injection H as _ <-. reflexivity.
  - split; [reflexivity|]. discriminate.
  - split; [reflexivity|]. discriminate.
Qed.

Lemma deliver_all_once_ready (ds : list Handshake) (f : Frame) :
  _initialized_bot (self f) = true →
  ∃ g, deliver_all ds f = Returns tt g
       ∧ names (cls g) = names (cls f)
       ∧ spawn_ids (cls g)
         = spawn_ids (cls f)
             ++ map controllable_spawn_id (mapped_controllables ds)
       ∧ indices (cls g)
         = indices (cls f)
             ++ map controllable_index (mapped_controllables ds).
Proof.
  revert f. induction ds as [|d ds IH]; intros f Hr.
  - exists f. simpl. rewrite !app_nil_r. repeat split.
  - rewrite deliver_all_cons, (deliver_when_ready d f Hr).
    destruct (stored_flags d f) as (_ & _ & _ & Hr' & _).
    destruct (stored_roster d f) as (Hs & Hi & Hn & _).
    destruct (IH (stored d f)) as (g & Hg & Hng & Hsg & Hig).
    { rewrite Hr'. exact Hr. }
    exists g. split; [exact Hg|]. split; [rewrite Hng; exact Hn|].
    replace (mapped_controllables (d :: ds))
      with (mapped_controllables [d] ++ mapped_controllables ds)
      by (simpl; rewrite app_nil_r; reflexivity).
    rewrite !map_app, !app_assoc, <- Hs, <- Hi. split; assumption.
Qed.

Lemma names_added_by_initialize (d : Handshake) (f : Frame) :
  names (roster_with_names
           (player_configurations (match_settings (self (stored d f))))
           (cls (stored d f)))
  = names (cls f)
      ++ map name
           (ours (roster_with_controllables (mapped_controllables [d]) (cls f))
              (player_configurations
                 (latest_match_settings (match_settings (self f)) [d]))).
Proof.
  destruct (stored_roster d f) as (Hs & _ & Hn & Hm).
  simpl names. rewrite Hn. f_equal. f_equal.
  replace (latest_match_settings (match_settings (self f)) [d])
    with (match_settings (self (stored d f)))
    by (rewrite Hm; destruct d; reflexivity).
  apply ours_same_spawn_ids. unfold roster_with_controllables.
  cbn [spawn_ids]. rewrite Hs. reflexivity.
Qed.

Lemma names_added_later (d : Handshake) (f : Frame) (ds0 : list Handshake)
    (d' : Handshake) :
  names (cls (stored d f))
    ++ map name
         (ours (roster_with_controllables (mapped_controllables (ds0 ++ [d']))
                  (cls (stored d f)))
            (player_configurations
               (latest_match_settings (match_settings (self (stored d f)))
                  (ds0 ++ [d']))))
  = names (cls f)
      ++ map name
           (ours (roster_with_controllables
                    (mapped_controllables ((d :: ds0) ++ [d'])) (cls f))
              (player_configurations
                 (latest_match_settings (match_settings (self f))
                    ((d :: ds0) ++ [d'])))).
Proof.
  destruct (stored_roster d f) as (Hs & _ & Hn & Hm).
  rewrite Hn. f_equal. f_equal.
  replace (latest_match_settings (match_settings (self f))
             ((d :: ds0) ++ [d']))
    with (latest_match_settings (match_settings (self (stored d f)))
            (ds0 ++ [d']))
    by (rewrite Hm; destruct d; reflexivity).
  apply ours_same_spawn_ids. unfold roster_with_controllables.
  cbn [spawn_ids]. rewrite Hs.
  replace (mapped_controllables ((d :: ds0) ++ [d']))
    with (mapped_controllables [d] ++ mapped_controllables (ds0 ++ [d']))
    by (simpl; rewrite app_nil_r; reflexivity).
  rewrite map_app, app_assoc. reflexivity.
Qed.

Lemma deliver_all_exact (ds : list Handshake) (f : Frame) :
  ∃ ds1 ds2 : list Handshake,
    ds = ds1 ++ ds2
    ∧ (∀ u g, deliver_all ds f = Returns u g → ds2 = [])
    ∧ spawn_ids (cls (frame_of (deliver_all ds f)))
      = spawn_ids (cls f)
          ++ map controllable_spawn_id (mapped_controllables ds1)
    ∧ indices (cls (frame_of (deliver_all ds f)))
      = indices (cls f) ++ map controllable_index (mapped_controllables ds1)
    ∧ ((names (cls (frame_of (deliver_all ds f))) = names (cls f)
        ∧ ∀ ds0 d ds3,
            ds1 = ds0 ++ d :: ds3 →
            fires d (self (frame_of (deliver_all ds0 f))) = false)
       ∨ ∃ ds0 d ds3,
           ds1 = ds0 ++ d :: ds3
           ∧ fires d (self (frame_of (deliver_all ds0 f))) = true
           ∧ names (cls (frame_of (deliver_all ds f)))
             = names (cls f)
                 ++ map name
                      (ours (roster_with_controllables
                               (mapped_controllables (ds0 ++ [d])) (cls f))
                         (player_configurations
                            (latest_match_settings (match_settings (self f))
                               (ds0 ++ [d]))))).
Proof.
  revert f. induction ds as [|d ds IH]; intros f.
  - exists [], []. simpl. rewrite !app_nil_r.
    split; [reflexivity|]. split; [auto|]. split; [reflexivity|].
    split; [reflexivity|]. left. split; [reflexivity|].
    intros ds0 d ds3 H. destruct ds0; discriminate.
  - destruct (fires d (self f)) eqn:Hf.
    + destruct (deliver_with_initialize d f Hf) as [Hcls Hready].
      destruct (stored_roster d f) as (Hs & Hi & _ & _).
      pose proof (names_added_by_initialize d f) as Hn.
      rewrite deliver_all_cons.
      destruct (deliver d f) as [u g1|e g1]; simpl in Hcls.
      * destruct (deliver_all_once_ready ds g1 (Hready u g1 eq_refl))
          as (g & Hg & Hng & Hsg & Hig).
        exists (d :: ds), []. rewrite Hg. simpl frame_of.
        split; [rewrite app_nil_r; reflexivity|]. split; [auto|].
        replace (mapped_controllables (d :: ds))
          with (mapped_controllables [d] ++ mapped_controllables ds)
          by (simpl; rewrite app_nil_r; reflexivity).
        rewrite !map_app, !app_assoc, <- Hs, <- Hi.
        rewrite Hsg, Hig, Hng, Hcls.
        split; [reflexivity|]. split; [reflexivity|].
        right. exists [], d, ds. split; [reflexivity|].
        split; [exact Hf|]. exact Hn.
      * exists [d], ds. simpl frame_of.
        split; [reflexivity|]. split; [discriminate|].
        rewrite Hcls. simpl spawn_ids. simpl indices.
        split; [exact Hs|]. split; [exact Hi|].
        right. exists [], d, []. split; [reflexivity|].
        split; [exact Hf|]. exact Hn.
    + pose proof (deliver_without_initialize d f Hf) as Hd.
      assert (Hpre : ∀ ds0, frame_of (deliver_all (d :: ds0) f)
                            = frame_of (deliver_all ds0 (stored d f))).
      { intros ds0. rewrite deliver_all_cons, Hd. reflexivity. }
      destruct (stored_roster d f) as (Hs & Hi & Hn & _).
      destruct (IH (stored d f))
        as (ds1 & ds2 & -> & Hret & Hs' & Hi' & Hnames).
      exists (d :: ds1), ds2. rewrite Hpre.
      split; [reflexivity|].
      split; [intros u g; rewrite deliver_all_cons, Hd; apply Hret|].
      replace (mapped_controllables (d :: ds1))
        with (mapped_controllables [d] ++ mapped_controllables ds1)
        by (simpl; rewrite app_nil_r; reflexivity).
      rewrite !map_app, !app_assoc, <- Hs, <- Hi.
      split; [exact Hs'|]. split; [exact Hi'|].
      destruct Hnames as [[Hsame Hnone]|(ds0 & d' & ds3 & -> & Hfires & Hadd)].
      * left. split; [rewrite Hsame; exact Hn|].
        intros ds0 d' ds3 Hsplit. destruct ds0 as [|x ds0].
        -- simpl in Hsplit. injection Hsplit as <- _. exact Hf.
        -- simpl in Hsplit. injection Hsplit as <- Hsplit.
           rewrite Hpre. apply (Hnone ds0 d' ds3 Hsplit).
      * right. exists (d :: ds0), d', ds3. split; [reflexivity|].
        rewrite Hpre. split; [exact Hfires|].
        rewrite Hadd. apply names_added_later.
Qed.

(** C8, as the code has it: over any run of handshake deliveries,
    [spawn_ids] and [indices] grow by the same controllables in order of
    arrival, so they keep the same length and position k of both is one
    unit.  [names] is extended only by [_initialize], at the one delivery
    whose guard is met if there is one: it grows by the names of the player
    configurations, in the order of the match settings held at that
    delivery, whose spawn id is in the [spawn_ids] of that moment; without
    such a delivery [names] is as before.  ([ds1] is what was delivered:
    all of [ds], unless a delivery raised.) *)
Theorem roster_after_handshake (f : Frame) (ds : list Handshake) :
  length (spawn_ids (cls f)) = length (indices (cls f)) →
  ∃ ds1 ds2 : list Handshake,
    ds = ds1 ++ ds2
    ∧ (∀ u g, deliver_all ds f = Returns u g → ds2 = [])
    ∧ length (spawn_ids (cls (frame_of (deliver_all ds f))))
      = length (indices (cls (frame_of (deliver_all ds f))))
    ∧ spawn_ids (cls (frame_of (deliver_all ds f)))
      = spawn_ids (cls f)
          ++ map controllable_spawn_id (mapped_controllables ds1)
    ∧ indices (cls (frame_of (deliver_all ds f)))
      = indices (cls f) ++ map controllable_index (mapped_controllables ds1)
    ∧ (∀ (k : nat) (s i : Z),
         (length (spawn_ids (cls f)) ≤ k)%nat →
         spawn_ids (cls (frame_of (deliver_all ds f))) !! k = Some s →
         indices (cls (frame_of (deliver_all ds f))) !! k = Some i →
         ∃ c, mapped_controllables ds1
                !! (k - length (spawn_ids (cls f)))%nat = Some c
              ∧ controllable_spawn_id c = s
              ∧ controllable_index c = i)
    ∧ ((names (cls (frame_of (deliver_all ds f))) = names (cls f)
        ∧ ∀ ds0 d ds3,
            ds1 = ds0 ++ d :: ds3 →
            fires d (self (frame_of (deliver_all ds0 f))) = false)
       ∨ ∃ ds0 d ds3,
           ds1 = ds0 ++ d :: ds3
           ∧ fires d (self (frame_of (deliver_all ds0 f))) = true
           ∧ names (cls (frame_of (deliver_all ds f)))
             = names (cls f)
                 ++ map name
                      (ours (roster_with_controllables
                               (mapped_controllables (ds0 ++ [d])) (cls f))
                         (player_configurations
                            (latest_match_settings (match_settings (self f))
                               (ds0 ++ [d]))))).
Proof.
  intros Hlen.
  destruct (deliver_all_exact ds f)
    as (ds1 & ds2 & Hds & Hret & Hs & Hi & Hn).
  exists ds1, ds2.
  split; [exact Hds|]. split; [exact Hret|].
  split; [rewrite Hs, Hi, !length_app, !length_map, Hlen; reflexivity|].
  split; [exact Hs|]. split; [exact Hi|]. split; [|exact Hn].
  intros k s i Hk Hks Hki.
  rewrite Hs in Hks. rewrite Hi in Hki.
  rewrite lookup_app_r in Hks by exact Hk.
  rewrite lookup_app_r in Hki by (rewrite <- Hlen; exact Hk).
  rewrite <- Hlen in Hki.
  change (map controllable_spawn_id (mapped_controllables ds1))
    with (controllable_spawn_id <$> mapped_controllables ds1) in Hks.
  change (map controllable_index (mapped_controllables ds1))
    with (controllable_index <$> mapped_controllables ds1) in Hki.
  rewrite list_lookup_fmap in Hks, Hki.
  destruct (mapped_controllables ds1 !! (k - length (spawn_ids (cls f)))%nat)
    as [c|]; [|discriminate].
  exists c. simpl in Hks, Hki. split; [reflexivity|]. split; congruence.
Qed.

(** *** The desired-state writer *)

Lemma max_of_spec (ks : list Z) :
  match max_of ks with
  | None => ks = []
  | Some m => m ∈ ks ∧ ∀ k, k ∈ ks → k ≤ m
  end.
Proof.
  induction ks as [|k ks IH]; simpl; [reflexivity|].
  destruct (max_of ks) as [m|].
  - destruct IH as [Hm Hle]. split.
    + destruct (Z.max_spec k m) as [[_ ->]|[_ ->]];
        [apply list_elem_of_further, Hm|apply list_elem_of_here].
    + intros k' Hk'. apply elem_of_cons in Hk'.
      destruct Hk' as [->|Hk']; [lia|]. specialize (Hle k' Hk'). lia.
  - subst ks. split; [apply list_elem_of_here|].
    intros k' Hk'. apply list_elem_of_singleton in Hk'. lia.
Qed.

Lemma key_of_map_to_list {V} (d : gmap Z V) (k : Z) :
  k ∈ (map_to_list d).*1 ↔ is_Some (d !! k).
Proof.
  rewrite list_elem_of_fmap. split.
  - intros ([k' v] & -> & Hkv). apply elem_of_map_to_list in Hkv.
    simpl. eauto.
  - intros [v Hv]. exists (k, v). split; [reflexivity|].
    apply elem_of_map_to_list. exact Hv.
Qed.

Lemma fill_blanks_dense {V} (blank : V) (d : gmap Z V) :
  dense_from blank d (fill_blanks blank d).
Proof.
  unfold dense_from, fill_blanks. split.
  - intros ->. reflexivity.
  - intros Hne. rewrite bool_decide_eq_false_2 by exact Hne.
    pose proof (max_of_spec (map_to_list d).*1) as Hmax.
    destruct (max_of (map_to_list d).*1) as [m|].
    + destruct Hmax as [Hm Hle]. exists m. eexists.
      split; [reflexivity|].
      split; [apply key_of_map_to_list, Hm|].
      split; [intros k Hk; apply Hle, key_of_map_to_list, Hk|].
      split; [rewrite length_map, length_seqZ; reflexivity|].
      intros i Hi.
      change (map ?g ?l) with (g <$> l).
      rewrite list_lookup_fmap.
      rewrite lookup_seqZ_lt by lia.
      simpl. rewrite Z2Nat.id by lia. reflexivity.
    + exfalso. apply Hne. apply map_to_list_empty_iff.
      apply fmap_nil_inv in Hmax. exact Hmax.
Qed.

(** C5: [set_game_state] returns after one message to the relay, which
    carries the game info and the commands as given and, for the balls and
    for the cars alike: no sequence when the mapping is empty, and
    otherwise the sequence over the positions 0 to the greatest key, with
    the mapping's value where there is one and the default state elsewhere
    (its length is written [Z.to_nat (max_key + 1)]). *)
Theorem set_game_state_sends_dense_sequences
    (balls : gmap Z DesiredBallState) (cars : gmap Z DesiredCarState)
    (game_info : option DesiredGameInfoState) (commands : list ConsoleCommand)
    (f : Frame) :
  ∃ game_state,
    set_game_state balls cars game_info commands f
    = Returns tt {| cls := cls f; self := self f;
                    out := out f ++ [relay_send_game_state game_state] |}
    ∧ dense_from DesiredBallState_default balls (ball_states game_state)
    ∧ dense_from DesiredCarState_default cars (car_states game_state)
    ∧ game_info_state game_state = game_info
    ∧ console_commands game_state = commands.
Proof.
  unfold set_game_state, emit.
  pose proof (fill_blanks_dense DesiredBallState_default balls) as Hb.
  pose proof (fill_blanks_dense DesiredCarState_default cars) as Hc.
  eexists. split; [reflexivity|].
  destruct (fill_blanks DesiredBallState_default balls),
    (fill_blanks DesiredCarState_default cars); simpl; auto.
Qed.

End WithBot.

Lemma initialization_fires_once_witness :
  (_initialized_bot (self Frame_start) = false
   ∧ _has_match_settings (self Frame_start) = false
   ∧ _has_field_info (self Frame_start) = false
   ∧ _has_player_mapping (self Frame_start) = false)
  ∧ init_calls
      (out (frame_of
              (@deliver_all Hivemind_base
                 [field_info_arrives FieldInfo_default;
                  player_mappings_arrive
                    {| controllables_team := 0; controllables := [] |};
                  match_settings_arrives MatchSettings_default]
                 Frame_start)))
    = 1%nat.
Proof.
  split; [repeat split|].
  destruct (@initialization_fires_once Hivemind_base Frame_start
              [field_info_arrives FieldInfo_default;
               player_mappings_arrive
                 {| controllables_team := 0; controllables := [] |};
               match_settings_arrives MatchSettings_default]
              eq_refl eq_refl eq_refl eq_refl) as [H _].
  exact H.
Defined.

Lemma failing_get_outputs_costs_one_tick_witness :
  (last (indices (cls Frame_one_unit)) = Some 0
   ∧ 0 < Z.of_nat (length (players (frame_numbered 0 1)))
   ∧ @get_outputs Flaky (cls Frame_one_unit) (snapshot Frame_one_unit)
       (frame_numbered 0 1) = raised (UserError "no plan")
   ∧ is_Exception (UserError "no plan") = true)
  ∧ ∃ g, @_packet_processor Flaky (frame_numbered 0 1) Frame_one_unit
         = Returns tt g
         ∧ ∃ g', @_packet_processor Flaky (frame_numbered 1 1) g = Returns tt g'
                 ∧ out g' = out g ++ [call_get_outputs (frame_numbered 1 1);
                                      input_message
                                        (0, {| controller_state_payload := 1 |})].
Proof.
  split; [repeat split|].
  destruct (@failing_get_outputs_costs_one_tick Flaky Frame_one_unit
              (frame_numbered 0 1) 0 (UserError "no plan")
              eq_refl eq_refl eq_refl eq_refl)
    as (g & es & Hg & _ & _ & _ & _ & Hnext).
  exists g. split; [exact Hg|].
  apply (Hnext (frame_numbered 1 1)
                 [(0, {| controller_state_payload := 1 |})]);
    [reflexivity|reflexivity|].
  intros index c Hin. apply list_elem_of_singleton in Hin.
  injection Hin as -> _. lia.
Defined.

Lemma frame_not_beyond_last_index_is_dropped_witness :
  (last (indices (cls Frame_unordered)) = Some 2
   ∧ Z.of_nat (length (players (frame_numbered 1 2))) ≤ 2)
  ∧ @_packet_processor Flaky (frame_numbered 1 2) Frame_unordered
    = Returns tt Frame_unordered.
Proof.
  split; [split; [reflexivity|discriminate]|].
  apply (@frame_not_beyond_last_index_is_dropped Flaky Frame_unordered
           (frame_numbered 1 2) 2); [reflexivity|discriminate].
Defined.

(** C7, as the specification has it, fails: with the roster indices 5 and 2, in this
    order, a frame of four players has no entry for index 5, yet it passes
    the check against the last index, 2: [get_outputs] is called and its
    answer is sent. *)
Lemma frame_short_of_highest_index_is_processed :
  highest_index (cls Frame_unordered) = Some 5
  ∧ Z.of_nat (length (players (frame_numbered 1 4))) ≤ 5
  ∧ out (frame_of (@_packet_processor Flaky (frame_numbered 1 4) Frame_unordered))
    = [call_get_outputs (frame_numbered 1 4);
       relay_send_player_input
         {| player_index := 0;
            controller_state := {| controller_state_payload := 1 |} |}].
Proof.
  split; [reflexivity|]. split; [discriminate|]. reflexivity.
Qed.

Lemma mailbox_keeps_latest_frame_witness :
  ∃ g, (@drain Flaky) (frame_of ((_handle_packet (frame_numbered 1 1) ;;
                                  _handle_packet (frame_numbered 2 1))
                                   Frame_one_unit))
       = Returns tt g
       ∧ frames_given_to_get_outputs (out g) = [frame_numbered 2 1]
       ∧ _latest_packet (self g) = None.
Proof.
  destruct (@mailbox_keeps_latest_frame Flaky Frame_one_unit
              (frame_numbered 1 1) (frame_numbered 2 1))
    as (H1 & _ & H3 & _ & _).
  rewrite H1. simpl frame_of. rewrite H3.
  eexists. split; [reflexivity|]. split; reflexivity.
Defined.

(* a run in a new process: controller [a] receives one unit, and controller
   [b] has it in its roster *)
Example second_instance_sees_first_ones_roster :
  ∃ w1 a w2 b w3 res,
    @construct Hivemind_base (Some "a") Process_start = (w1, Some a)
    ∧ @construct Hivemind_base (Some "b") w1 = (w2, Some b)
    ∧ @method_call Hivemind_base _ a
        (@_handle_player_mappings Hivemind_base one_unit) w2
      = Some (w3, res)
    ∧ spawn_ids <$> getattr_roster w2 b = Some []
    ∧ spawn_ids <$> getattr_roster w3 b = Some [10].
Proof.
  do 6 eexists.
  split; [reflexivity|]. split; [reflexivity|]. split; [reflexivity|].
  split; vm_compute; reflexivity.
Qed.

Lemma roster_after_handshake_witness :
  length (spawn_ids (cls Frame_start)) = length (indices (cls Frame_start))
  ∧ length (spawn_ids
              (cls (frame_of
                      (@deliver_all Hivemind_base
                         [player_mappings_arrive two_units_unordered;
                          field_info_arrives FieldInfo_default;
                          match_settings_arrives settings_two]
                         Frame_start))))
    = length (indices
                (cls (frame_of
                        (@deliver_all Hivemind_base
                           [player_mappings_arrive two_units_unordered;
                            field_info_arrives FieldInfo_default;
                            match_settings_arrives settings_two]
                           Frame_start)))).
Proof.
  split; [reflexivity|].
  destruct (@roster_after_handshake Hivemind_base Frame_start
              [player_mappings_arrive two_units_unordered;
               field_info_arrives FieldInfo_default;
               match_settings_arrives settings_two] eq_refl)
    as (ds1 & ds2 & _ & _ & H & _).
  exact H.
Defined.

(** C8, as the specification has it, fails.  After the units with spawn ids 50 and
    20 arrive in this order and the match settings list "low" (20) before
    "high" (50), position 0 holds spawn id 50 and the name "low".  After the
    same player-mapping payload is delivered twice, [spawn_ids] has two
    entries and [names] has one. *)
Lemma names_are_not_parallel_to_spawn_ids :
  (let g := frame_of
              (@deliver_all Hivemind_base
                 [player_mappings_arrive two_units_unordered;
                  field_info_arrives FieldInfo_default;
                  match_settings_arrives settings_two]
                 Frame_start) in
   _initialized_bot (self g) = true
   ∧ spawn_ids (cls g) = [50; 20]
   ∧ indices (cls g) = [5; 2]
   ∧ names (cls g) = ["low"; "high"])
  ∧ (let g := frame_of
                (@deliver_all Hivemind_base
                   [player_mappings_arrive one_unit;
                    player_mappings_arrive one_unit;
                    field_info_arrives FieldInfo_default;
                    match_settings_arrives settings_one]
                   Frame_start) in
     _initialized_bot (self g) = true
     ∧ spawn_ids (cls g) = [10; 10]
     ∧ indices (cls g) = [0; 0]
     ∧ names (cls g) = ["solo"]
     ∧ length (names (cls g)) ≠ length (spawn_ids (cls g))).
Proof. vm_compute. repeat split. discriminate. Qed.

Lemma set_game_state_sends_dense_sequences_witness :
  ∃ game_state l,
    out (frame_of (set_game_state {[3 := ball_placed]} ∅ None [] Frame_start))
    = [relay_send_game_state game_state]
    ∧ car_states game_state = None
    ∧ ball_states game_state = Some l
    ∧ length l = 4%nat
    ∧ l !! 3%nat = Some ball_placed
    ∧ l !! 0%nat = Some DesiredBallState_default.
Proof.
  destruct (set_game_state_sends_dense_sequences
              {[3 := ball_placed]} ∅ None [] Frame_start)
    as (game_state & E & [_ Hb] & [Hc _] & _).
  destruct Hb as (max_key & l & Hl & Hmax & _ & Hlen & Hat).
  { apply insert_non_empty. }
  assert (max_key = 3) as ->.
  { destruct Hmax as [v Hv]. apply lookup_singleton_Some in Hv. lia. }
  exists game_state, l. rewrite E. simpl.
  split; [reflexivity|]. split; [apply Hc; reflexivity|].
  split; [exact Hl|]. split; [exact Hlen|].
  split; [apply (Hat 3); lia|apply (Hat 0); lia].
Defined.

(* the spec's worked case: one entry at key 3 *)
Example fill_blanks_single_entry :
  fill_blanks DesiredBallState_default {[3 := ball_placed]}
  = Some [DesiredBallState_default; DesiredBallState_default;
          DesiredBallState_default; ball_placed].
Proof. vm_compute. reflexivity. Qed.

(* a controller whose [initialize] fails: the call is made once, the failure
   is logged and the process is told to exit, with [_initialized_bot] down *)
Example failed_initialization_exits :
  @deliver_all Unready
    [match_settings_arrives settings_one;
     player_mappings_arrive one_unit;
     field_info_arrives FieldInfo_default;
     field_info_arrives FieldInfo_default]
    Frame_start
  = Raises (SystemExit None)
      {| cls := {| loggers := ["solo"]; indices := [0]; names := ["solo"];
                   spawn_ids := [10] |};
         self := set__has_field_info true
                   (set__has_player_mapping true
                      (set_team 0
                         (set__has_match_settings true
                            (set_match_settings settings_one
                               (self Frame_start)))));
         out := [call_initialize;
                 log_critical
                   "Hivemind %s failed to initialize due the following error: %s"
                   [arg_str "solo"; arg_exn (UserError "not ready")];
                 print_exc] |}.
Proof. reflexivity. Qed.

(* one turn of the loop of [run]: two packets arrive, the socket would
   block, and the second packet alone is given to [get_outputs] *)
Example loop_turn_with_two_packets :
  @loop_body Flaky
    {| arrived := [in_packet (frame_numbered 1 1); in_packet (frame_numbered 2 1)];
       poll_end := would_block |}
    Frame_one_unit
  = Returns Continue
      {| cls := cls Frame_one_unit;
         self := self Frame_one_unit;
         out := [call_get_outputs (frame_numbered 2 1);
                 input_message (0, {| controller_state_payload := 2 |})] |}.
Proof. reflexivity. Qed.

End HiveFacts.

(** ** Runs of calls on the render batcher *)
Module RenderingRuns.
Import Rendering.

Lemma perform_all_app (secret : PyHash.Secret) (cs cs' : list Call)
    (r : RenderingManager) :
  perform_all secret (cs ++ cs') r =
    let '(r1, e1) := perform_all secret cs r in
    let '(r2, e2) := perform_all secret cs' r1 in
    (r2, e1 ++ e2).
Proof.
  revert r. induction cs as [|c cs IH]; intros r; simpl.
  - destruct (perform_all secret cs' r). reflexivity.
  - destruct (perform secret c r) as [r1 e1]. rewrite IH.
    destruct (perform_all secret cs r1) as [r2 e2].
    destruct (perform_all secret cs' r2) as [r3 e3].
    rewrite app_assoc. reflexivity.
Qed.

Lemma perform_draws (secret : PyHash.Secret) (ds : list DrawCall)
    (r : RenderingManager) :
  perform_all secret (map call_draw ds) r =
    ({| used_group_ids := used_group_ids r;
        group_id := group_id r;
        current_renders := current_renders r ++ map descriptor ds |}, []).
Proof.
  revert r. induction ds as [|d ds IH]; intros r; simpl.
  - rewrite app_nil_r. destruct r; reflexivity.
  - destruct d; simpl; rewrite IH; simpl; rewrite <- app_assoc; reflexivity.
Qed.

Lemma sent_renders_app (es es' : list Effect) :
  sent_renders (es ++ es') = sent_renders es ++ sent_renders es'.
Proof. apply flat_map_app. Qed.

Lemma perform_keeps_draws (secret : PyHash.Secret) (c : Call)
    (r : RenderingManager) :
  sent_renders (perform secret c r).2 ++ current_renders (perform secret c r).1
  = current_renders r ++ drawn [c].
Proof.
  destruct c as [name| |d|name|]; simpl.
  - unfold begin_rendering. destruct (group_id r); simpl;
      rewrite app_nil_r; reflexivity.
  - unfold end_rendering. destruct (group_id r); simpl;
      rewrite ?app_nil_r; reflexivity.
  - destruct d; reflexivity.
  - rewrite app_nil_r. reflexivity.
  - unfold sent_renders. rewrite app_nil_r.
    induction (elements (used_group_ids r)) as [|x l IH]; [reflexivity|exact IH].
Qed.

(** Over any run of calls from any manager, what the groups sent contain,
    followed by what is still pending, is what was pending at the start
    followed by the descriptors of the draw calls, in call order: no draw
    is lost, sent twice or reordered, whatever begin, end and clear calls
    come in between. *)
Theorem draws_are_sent_once_in_order (secret : PyHash.Secret)
    (cs : list Call) (r : RenderingManager) :
  sent_renders (perform_all secret cs r).2
    ++ current_renders (perform_all secret cs r).1
  = current_renders r ++ drawn cs.
Proof.
  revert r. induction cs as [|c cs IH]; intros r; simpl.
  - rewrite app_nil_r. reflexivity.
  - pose proof (perform_keeps_draws secret c r) as Hc.
    destruct (perform secret c r) as [r1 e1]. simpl in Hc.
    specialize (IH r1).
    destruct (perform_all secret cs r1) as [r2 e2]. simpl in *.
    rewrite sent_renders_app, <- app_assoc, IH, app_assoc, Hc.
    rewrite app_nil_r, <- app_assoc. reflexivity.
Qed.

Lemma count_app {A} (p : A → bool) (l l' : list A) :
  length (List.filter p (l ++ l'))
  = (length (List.filter p l) + length (List.filter p l'))%nat.
Proof. rewrite List.filter_app, length_app. reflexivity. Qed.

Lemma removals_are_neither_sent_nor_logged (ids : list Z) :
  List.filter is_send_render_group (remove_render_group <$> ids) = []
  ∧ List.filter is_log_error (remove_render_group <$> ids) = [].
Proof. induction ids as [|x l [IH1 IH2]]; split; simpl; auto. Qed.

Lemma perform_accounts (secret : PyHash.Secret) (c : Call)
    (r : RenderingManager) :
  ((if is_begin_or_end c then 1 else 0) + open_batches r
   = 2 * length (List.filter is_send_render_group (perform secret c r).2)
     + length (List.filter is_log_error (perform secret c r).2)
     + open_batches (perform secret c r).1)%nat.
Proof.
  destruct c as [name| |d|name|]; simpl.
  - unfold begin_rendering, open_batches.
    destruct (group_id r) eqn:E; simpl; rewrite ?E; reflexivity.
  - unfold end_rendering, open_batches.
    destruct (group_id r) eqn:E; simpl; rewrite ?E; reflexivity.
  - destruct d; reflexivity.
  - reflexivity.
  - destruct (removals_are_neither_sent_nor_logged
                (elements (used_group_ids r))) as [-> ->].
    reflexivity.
Qed.

(** Over any run of calls, every begin_rendering and end_rendering call is
    accounted for: it is half of a group that was sent, or it logged one
    error, or it is the begin of the batch still open.  So a batch is sent
    only by an end that closes an open batch, and each misuse (a begin
    while a batch is open, an end while none is) logs exactly one error. *)
Theorem begin_and_end_calls_are_sent_or_logged (secret : PyHash.Secret)
    (cs : list Call) (r : RenderingManager) :
  (length (List.filter is_begin_or_end cs) + open_batches r
   = 2 * length (List.filter is_send_render_group (perform_all secret cs r).2)
     + length (List.filter is_log_error (perform_all secret cs r).2)
     + open_batches (perform_all secret cs r).1)%nat.
Proof.
  revert r. induction cs as [|c cs IH]; intros r; simpl.
  - lia.
  - pose proof (perform_accounts secret c r) as Hc.
    destruct (perform secret c r) as [r1 e1]. simpl in Hc.
    specialize (IH r1).
    destruct (perform_all secret cs r1) as [r2 e2]. simpl in *.
    rewrite !count_app.
    destruct (is_begin_or_end c); simpl; lia.
Qed.

(** A begin_rendering call made while a batch is open logs one error and
    opens nothing: what is drawn before and after it goes out together, in
    order, in one group under the first name's id when the batch is ended,
    and the second name's id is not recorded as used. *)
Theorem nested_begin_leaves_the_open_batch (secret : PyHash.Secret)
    (r : RenderingManager) (name1 name2 : string) (ds1 ds2 : list DrawCall) :
  group_id r = None →
  perform_all secret
    (call_begin_rendering name1 :: map call_draw ds1
       ++ call_begin_rendering name2 :: map call_draw ds2
       ++ [call_end_rendering]) r
  = ({| used_group_ids := {[_get_group_id secret name1]} ∪ used_group_ids r;
        group_id := None;
        current_renders := [] |},
     [log_error "begin_rendering was called twice without end_rendering.";
      send_render_group
        {| render_messages :=
             current_renders r ++ map descriptor ds1 ++ map descriptor ds2;
           id := _get_group_id secret name1 |}]).
Proof.
  intros Hr.
  cbn [perform_all perform]. unfold begin_rendering at 1. rewrite Hr.
  rewrite perform_all_app, perform_draws.
  cbn [perform_all perform]. unfold begin_rendering at 1.
  cbn [group_id used_group_ids current_renders].
  rewrite perform_all_app, perform_draws.
  cbn [perform_all perform]. unfold end_rendering.
  cbn [group_id used_group_ids current_renders app].
  rewrite <- app_assoc. reflexivity.
Qed.

Lemma nested_begin_leaves_the_open_batch_witness :
  group_id new = None
  ∧ (perform_all (PyHash.secret_of_seed 0)
       [call_begin_rendering "g";
        call_draw (call_draw_line_3d {| line3d_payload := 1 |});
        call_begin_rendering "h";
        call_end_rendering] new).2
    = [log_error "begin_rendering was called twice without end_rendering.";
       send_render_group
         {| render_messages :=
              [{| variety := line_3_d {| line3d_payload := 1 |} |}];
            id := _get_group_id (PyHash.secret_of_seed 0) "g" |}].
Proof.
  split; [reflexivity|].
  pose proof (nested_begin_leaves_the_open_batch (PyHash.secret_of_seed 0) new
                "g" "h" [call_draw_line_3d {| line3d_payload := 1 |}] []
                eq_refl) as H.
  simpl map in H. simpl app in H. rewrite H. reflexivity.
Defined.

Lemma begun_ids_app (secret : PyHash.Secret) (cs cs' : list Call) :
  begun_ids secret (cs ++ cs') = begun_ids secret cs ++ begun_ids secret cs'.
Proof. apply flat_map_app. Qed.

Lemma perform_ids (secret : PyHash.Secret) (c : Call) (r : RenderingManager) :
  (∀ gid, gid ∈ used_group_ids (perform secret c r).1 →
          gid ∈ used_group_ids r ∨ gid ∈ begun_ids secret [c])
  ∧ (∀ gid, group_id (perform secret c r).1 = Some gid →
            group_id r = Some gid ∨ gid ∈ begun_ids secret [c])
  ∧ (∀ g, send_render_group g ∈ (perform secret c r).2 →
          group_id r = Some (id g)).
Proof.
  destruct c as [name| |d|name|]; simpl.
  - unfold begin_rendering. destruct (group_id r) as [gid0|] eqn:E; simpl.
    + split; [auto|]. split; [intros gid H; left; congruence|].
      intros g Hg. apply list_elem_of_singleton in Hg. discriminate.
    + split; [|split].
      * intros gid Hgid. apply elem_of_union in Hgid.
        destruct Hgid as [Hgid|Hgid]; [right|left; exact Hgid].
        apply elem_of_singleton in Hgid. subst gid. apply list_elem_of_here.
      * intros gid [= <-]. right. apply list_elem_of_here.
      * intros g Hg. apply elem_of_nil in Hg. destruct Hg.
  - unfold end_rendering. destruct (group_id r) as [gid0|] eqn:E; simpl.
    + split; [auto|]. split; [discriminate|].
      intros g Hg. apply list_elem_of_singleton in Hg. injection Hg as ->.
      reflexivity.
    + split; [auto|]. split; [intros gid H; congruence|].
      intros g Hg. apply list_elem_of_singleton in Hg. discriminate.
  - split; [destruct d; simpl; auto|]. split; [destruct d; simpl; auto|].
    intros g Hg. destruct d; apply elem_of_nil in Hg; destruct Hg.
  - split; [|split].
    + intros gid Hgid. left. apply elem_of_difference in Hgid. tauto.
    + auto.
    + intros g Hg. apply list_elem_of_singleton in Hg. discriminate.
  - split; [|split].
    + intros gid Hgid. apply elem_of_empty in Hgid. destruct Hgid.
    + auto.
    + intros g Hg. apply list_elem_of_fmap in Hg.
      destruct Hg as (x & Hx & _). discriminate.
Qed.

Lemma perform_all_ids (secret : PyHash.Secret) (cs : list Call)
    (r : RenderingManager) :
  (∀ gid, gid ∈ used_group_ids (perform_all secret cs r).1 →
          gid ∈ used_group_ids r ∨ gid ∈ begun_ids secret cs)
  ∧ (∀ gid, group_id (perform_all secret cs r).1 = Some gid →
            group_id r = Some gid ∨ gid ∈ begun_ids secret cs)
  ∧ (∀ g, send_render_group g ∈ (perform_all secret cs r).2 →
          group_id r = Some (id g) ∨ id g ∈ begun_ids secret cs).
Proof.
  revert r. induction cs as [|c cs IH]; intros r.
  - simpl. split; [auto|]. split; [auto|].
    intros g Hg. apply elem_of_nil in Hg. destruct Hg.
  - destruct (perform_ids secret c r) as (Hu & Ho & Hs).
    simpl perform_all.
    destruct (perform secret c r) as [r1 e1]. simpl in Hu, Ho, Hs.
    destruct (IH r1) as (Hu' & Ho' & Hs').
    destruct (perform_all secret cs r1) as [r2 e2]. simpl in Hu', Ho', Hs'.
    change (c :: cs) with ([c] ++ cs). rewrite begun_ids_app.
    simpl fst. simpl snd.
    split; [|split].
    + intros gid Hgid. destruct (Hu' gid Hgid) as [H|H].
      * destruct (Hu gid H) as [H'|H']; [left; exact H'|right].
        apply elem_of_app. left. exact H'.
      * right. apply elem_of_app. right. exact H.
    + intros gid Hgid. destruct (Ho' gid Hgid) as [H|H].
      * destruct (Ho gid H) as [H'|H']; [left; exact H'|right].
        apply elem_of_app. left. exact H'.
      * right. apply elem_of_app. right. exact H.
    + intros g Hg. apply elem_of_app in Hg. destruct Hg as [Hg|Hg].
      * left. apply Hs, Hg.
      * destruct (Hs' g Hg) as [H|H].
        -- destruct (Ho (id g) H) as [H'|H']; [left; exact H'|right].
           apply elem_of_app. left. exact H'.
        -- right. apply elem_of_app. right. exact H.
Qed.

Lemma begun_ids_in_range (secret : PyHash.Secret) (cs : list Call) (gid : Z) :
  gid ∈ begun_ids secret cs → 0 ≤ gid < MAX_INT.
Proof.
  induction cs as [|c cs IH]; intros H.
  - apply elem_of_nil in H. destruct H.
  - change (c :: cs) with ([c] ++ cs) in H. rewrite begun_ids_app in H.
    apply elem_of_app in H. destruct H as [H|H]; [|apply IH, H].
    destruct c; simpl in H; try (apply elem_of_nil in H; destruct H).
    apply list_elem_of_singleton in H. subst gid.
    unfold _get_group_id. apply Z.mod_pos_bound. reflexivity.
Qed.

(** clear_all_render_groups, after any run of calls on a new manager, asks
    the relay to remove exactly the ids then recorded as used, each once,
    and forgets them all; every id it removes is the id of a name that the
    run passed to begin_rendering, so no group of another origin is ever
    removed by it. *)
Theorem clear_all_removes_only_own_groups (secret : PyHash.Secret)
    (cs : list Call) :
  (∀ gid,
     remove_render_group gid
       ∈ (clear_all_render_groups (perform_all secret cs new).1).2
     ↔ gid ∈ used_group_ids (perform_all secret cs new).1)
  ∧ (∀ gid,
       remove_render_group gid
         ∈ (clear_all_render_groups (perform_all secret cs new).1).2
       → gid ∈ begun_ids secret cs)
  ∧ NoDup (clear_all_render_groups (perform_all secret cs new).1).2
  ∧ used_group_ids (clear_all_render_groups (perform_all secret cs new).1).1
    = ∅.
Proof.
  assert (Hiff : ∀ (r : RenderingManager) gid,
            remove_render_group gid ∈ (clear_all_render_groups r).2
            ↔ gid ∈ used_group_ids r).
  { intros r gid. simpl. rewrite list_elem_of_fmap. split.
    - intros (x & [= ->] & Hx). apply elem_of_elements, Hx.
    - intros H. exists gid. split; [reflexivity|apply elem_of_elements, H]. }
  split; [intros gid; apply Hiff|]. split; [|split].
  - intros gid Hgid. apply Hiff in Hgid.
    destruct (perform_all_ids secret cs new) as (Hu & _ & _).
    destruct (Hu gid Hgid) as [H|H]; [|exact H].
    apply elem_of_empty in H. destruct H.
  - simpl. apply NoDup_fmap_2; [|apply NoDup_elements].
    intros x y [= ->]. reflexivity.
  - reflexivity.
Qed.

(** Every group sent during a run of calls on a new manager carries the id
    of a name that the run passed to begin_rendering, a number from 0 up to
    MAX_INT excluded. *)
Theorem sent_groups_carry_begun_ids (secret : PyHash.Secret)
    (cs : list Call) (g : RenderGroup) :
  send_render_group g ∈ (perform_all secret cs new).2 →
  id g ∈ begun_ids secret cs ∧ 0 ≤ id g < MAX_INT.
Proof.
  intros Hg.
  destruct (perform_all_ids secret cs new) as (_ & _ & Hs).
  destruct (Hs g Hg) as [H|H]; [discriminate|].
  split; [exact H|]. apply (begun_ids_in_range secret cs), H.
Qed.

Lemma sent_groups_carry_begun_ids_witness :
  send_render_group
    {| render_messages := []; id := _get_group_id (PyHash.secret_of_seed 0) "g" |}
    ∈ (perform_all (PyHash.secret_of_seed 0)
         [call_begin_rendering "g"; call_end_rendering] new).2
  ∧ 0 ≤ _get_group_id (PyHash.secret_of_seed 0) "g" < MAX_INT.
Proof.
  assert (H : send_render_group
                {| render_messages := [];
                   id := _get_group_id (PyHash.secret_of_seed 0) "g" |}
              ∈ (perform_all (PyHash.secret_of_seed 0)
                   [call_begin_rendering "g"; call_end_rendering] new).2).
  { apply list_elem_of_here. }
  split; [exact H|].
  apply (sent_groups_carry_begun_ids _ _ _ H).
Defined.

(** clear_render_group asks the relay to remove the name's id whether or
    not this manager ever opened it, and forgets the id: the other ids stay
    recorded, the open batch and the pending renders are untouched, and a
    clear_all_render_groups that follows does not remove the id again. *)
Theorem cleared_group_is_forgotten (secret : PyHash.Secret) (name : string)
    (r : RenderingManager) :
  (clear_render_group secret name r).2
  = [remove_render_group (_get_group_id secret name)]
  ∧ (_get_group_id secret name
     ∉ used_group_ids (clear_render_group secret name r).1)
  ∧ (∀ gid, gid ≠ _get_group_id secret name →
       (gid ∈ used_group_ids (clear_render_group secret name r).1
        ↔ gid ∈ used_group_ids r))
  ∧ group_id (clear_render_group secret name r).1 = group_id r
  ∧ current_renders (clear_render_group secret name r).1 = current_renders r
  ∧ (remove_render_group (_get_group_id secret name)
     ∉ (clear_all_render_groups (clear_render_group secret name r).1).2).
Proof.
  simpl. split; [reflexivity|].
  split; [rewrite elem_of_difference, elem_of_singleton; tauto|].
  split.
  { intros gid Hne. rewrite elem_of_difference, elem_of_singleton. tauto. }
  split; [reflexivity|]. split; [reflexivity|].
  rewrite list_elem_of_fmap. intros (x & Heq & Hx).
  injection Heq as <-.
  rewrite elem_of_elements, elem_of_difference, elem_of_singleton in Hx.
  tauto.
Qed.

End RenderingRuns.

(** ** Runs of the controller *)
Module HiveRuns.
Import Hive.
Local Open Scope hive_scope.

Section WithRuns.
Context {bot : Bot}.

Lemma init_completions_app (es1 es2 : list Effect) :
  init_completions (es1 ++ es2)
  = (init_completions es1 + init_completions es2)%nat.
Proof.
  unfold init_completions. rewrite List.filter_app, length_app. reflexivity.
Qed.

(** *** The handshake, continued *)

Lemma deliver_completes (d : Handshake) (f : Frame) :
  match deliver d f with
  | Returns _ g =>
      init_completions (out g)
      = (init_completions (out f)
         + if negb (_initialized_bot (self f)) && _initialized_bot (self g)
           then 1 else 0)%nat
      ∧ (_initialized_bot (self f) = true → _initialized_bot (self g) = true)
  | Raises e g =>
      is_Exception e = false
      ∧ _initialized_bot (self f) = false
      ∧ _initialized_bot (self g) = false
      ∧ init_completions (out g) = init_completions (out f)
  end.
Proof.
  rewrite HiveFacts.deliver_outcome.
  destruct (HiveFacts.stored_flags d f) as (_ & _ & _ & Hr & Ho).
  destruct (_initialized_bot (self f)) eqn:Hf; simpl.
  - rewrite Hr, Ho. split; [lia|reflexivity].
  - destruct (others_ready d (self f)).
    + rewrite HiveFacts.initialize_outcome. cbv zeta.
      destruct (initialize _ _) as [[]|e0].
      * simpl. rewrite !init_completions_app, Ho.
        unfold init_completions at 2 3. simpl. split; [lia|auto].
      * destruct (is_Exception e0) eqn:He0; simpl;
          rewrite !init_completions_app, Ho, Hr;
          unfold init_completions at 2; simpl;
          repeat split; auto; unfold init_completions; simpl; lia.
    + rewrite Hr, Ho. split; [lia|discriminate].
Qed.

Lemma deliver_all_completes (ds : list Handshake) (f : Frame) :
  match deliver_all ds f with
  | Returns _ g =>
      init_completions (out g)
      = (init_completions (out f)
         + if negb (_initialized_bot (self f)) && _initialized_bot (self g)
           then 1 else 0)%nat
      ∧ (_initialized_bot (self f) = true → _initialized_bot (self g) = true)
  | Raises e g =>
      is_Exception e = false
      ∧ _initialized_bot (self f) = false
      ∧ _initialized_bot (self g) = false
      ∧ init_completions (out g) = init_completions (out f)
  end.
Proof.
  revert f. induction ds as [|d ds IH]; intros f.
  - simpl. split; [|auto].
    destruct (_initialized_bot (self f)); simpl; lia.
  - rewrite HiveFacts.deliver_all_cons.
    pose proof (deliver_completes d f) as Hd.
    destruct (deliver d f) as [u g1|e g1]; [|exact Hd].
    destruct Hd as [Hn Hm]. specialize (IH g1).
    destruct (deliver_all ds g1) as [u' g|e g].
    + destruct IH as [Hn' Hm']. split; [|auto].
      rewrite Hn', Hn.
      destruct (_initialized_bot (self f)), (_initialized_bot (self g1)),
        (_initialized_bot (self g)); simpl; try lia;
        try (specialize (Hm eq_refl); discriminate);
        try (specialize (Hm' eq_refl); discriminate).
    + destruct IH as (He & Hg1 & Hg & Hn').
      split; [exact He|].
      destruct (_initialized_bot (self f)) eqn:Hf.
      * specialize (Hm eq_refl). congruence.
      * split; [reflexivity|]. split; [exact Hg|].
        rewrite Hn', Hn, Hg1. simpl. lia.
Qed.

(** Over any run of handshake deliveries from any controller, the relay is
    told that initialization is complete exactly when [_initialized_bot]
    goes up: once if the run takes it from false to true, never otherwise.
    If a delivery raises, what escapes is not an Exception (a failing
    [initialize] is turned into SystemExit), [_initialized_bot] is still
    down and no completion was sent. *)
Theorem init_complete_is_sent_exactly_on_initialization (f : Frame)
    (ds : list Handshake) :
  init_completions (out (frame_of (deliver_all ds f)))
  = (init_completions (out f)
     + if negb (_initialized_bot (self f))
          && _initialized_bot (self (frame_of (deliver_all ds f)))
       then 1 else 0)%nat
  ∧ (∀ e g, deliver_all ds f = Raises e g →
       is_Exception e = false
       ∧ _initialized_bot (self g) = false
       ∧ init_completions (out g) = init_completions (out f)).
Proof.
  pose proof (deliver_all_completes ds f) as H.
  destruct (deliver_all ds f) as [u g|e g]; simpl.
  - split; [apply H|discriminate].
  - destruct H as (He & Hf & Hg & Hn). rewrite Hn, Hg, andb_false_r.
    split; [lia|]. intros e' g' [= <- <-]. auto.
Qed.

Lemma deliver_returns (d : Handshake) (f : Frame) :
  (∀ c h, initialize c h = returned tt) →
  ∃ g, deliver d f = Returns tt g.
Proof.
  intros Hinit. rewrite HiveFacts.deliver_outcome.
  destruct (negb _ && _); [|eauto].
  rewrite HiveFacts.initialize_outcome. cbv zeta. rewrite Hinit. eauto.
Qed.

(** With an [initialize] that always returns, as the one the class itself
    has, no run of handshake deliveries raises. *)
Theorem handshake_returns_when_initialize_does (f : Frame)
    (ds : list Handshake) :
  (∀ c h, initialize c h = returned tt) →
  ∃ g, deliver_all ds f = Returns tt g.
Proof.
  intros Hinit. revert f. induction ds as [|d ds IH]; intros f.
  - exists f. reflexivity.
  - rewrite HiveFacts.deliver_all_cons.
    destruct (deliver_returns d f Hinit) as [g1 ->]. apply IH.
Qed.

(** *** Frames, continued *)

Lemma drain_full (packet : GameTickPacket) (f : Frame) :
  _latest_packet (self f) = Some packet →
  drain f = match _packet_processor packet f with
            | Returns _ g => Returns tt (with_mailbox None g)
            | Raises e g => Raises e g
            end.
Proof.
  intros Hp. unfold drain. unfold bind at 1. unfold get_self at 1.
  rewrite Hp. unfold bind.
  destruct (_packet_processor packet f); reflexivity.
Qed.

(** A frame processed while the roster is still empty raises IndexError
    (the last roster index does not exist): nothing is called or sent, and
    the loop's drain leaves the frame in the mailbox. *)
Theorem frame_before_any_roster_raises (f : Frame) (packet : GameTickPacket) :
  indices (cls f) = [] →
  _latest_packet (self f) = Some packet →
  _packet_processor packet f = Raises IndexError f
  ∧ drain f = Raises IndexError f.
Proof.
  intros Hi Hp.
  assert (H : _packet_processor packet f = Raises IndexError f).
  { rewrite HiveFacts.packet_processor_outcome, Hi. reflexivity. }
  split; [exact H|]. rewrite (drain_full packet f Hp), H. reflexivity.
Qed.

(** When [get_outputs] raises what is not an Exception (KeyboardInterrupt,
    SystemExit), [_packet_processor] does not catch it: it escapes after
    the call alone, with no error record and no traceback, and the loop's
    drain leaves the frame in the mailbox. *)
Theorem non_exception_from_get_outputs_escapes (f : Frame)
    (packet : GameTickPacket) (last_index : Z) (e : exn) :
  last (indices (cls f)) = Some last_index →
  last_index < Z.of_nat (length (players packet)) →
  _latest_packet (self f) = Some packet →
  get_outputs (cls f) (snapshot f) packet = raised e →
  is_Exception e = false →
  _packet_processor packet f
  = Raises e {| cls := cls f; self := snapshot f;
                out := out f ++ [call_get_outputs packet] |}
  ∧ drain f
    = Raises e {| cls := cls f; self := snapshot f;
                  out := out f ++ [call_get_outputs packet] |}
  ∧ _latest_packet (snapshot f) = Some packet.
Proof.
  intros Hlast Hlen Hp Hget He.
  assert (H : _packet_processor packet f
              = Raises e {| cls := cls f; self := snapshot f;
                            out := out f ++ [call_get_outputs packet] |}).
  { rewrite HiveFacts.packet_processor_outcome, Hlast.
    destruct (Z.leb_spec (Z.of_nat (length (players packet))) last_index)
      as [?|_]; [lia|].
    rewrite Hget, He. reflexivity. }
  split; [exact H|]. split; [rewrite (drain_full packet f Hp), H; reflexivity|].
  exact Hp.
Qed.

(** Whatever the frame and however [get_outputs] ends, [_packet_processor]
    leaves the roster alone and changes no attribute of the controller
    but [ball_prediction]: the team, the stored payloads, the handshake
    flags, the mailbox and the latest prediction are as before. *)
Theorem frames_change_only_the_prediction_snapshot (f : Frame)
    (packet : GameTickPacket) :
  cls (frame_of (_packet_processor packet f)) = cls f
  ∧ (self (frame_of (_packet_processor packet f)) = self f
     ∨ self (frame_of (_packet_processor packet f)) = snapshot f)
  ∧ set_ball_prediction (ball_prediction (self f))
      (self (frame_of (_packet_processor packet f)))
    = self f.
Proof.
  rewrite HiveFacts.packet_processor_outcome.
  assert (Hs : set_ball_prediction (ball_prediction (self f)) (snapshot f)
               = self f).
  { destruct f as [c h es]. destruct h. reflexivity. }
  assert (Hs' : set_ball_prediction (ball_prediction (self f)) (self f)
                = self f).
  { destruct f as [c h es]. destruct h. reflexivity. }
  destruct (last (indices (cls f))) as [last_index|]; [|simpl; auto].
  destruct (Z.of_nat (length (players packet)) <=? last_index);
    [simpl; auto|].
  destruct (get_outputs _ _ _) as [controller|e];
    [cbv zeta; destruct (all_fit controller)|destruct (is_Exception e)];
    simpl; auto.
Qed.

Lemma with_prediction_twice (bp bp' : BallPrediction) (f : Frame) :
  with_prediction bp' (with_prediction bp f) = with_prediction bp' f.
Proof. destruct f as [c h es]. destruct h. reflexivity. Qed.

Lemma predictions_loop (bps : list BallPrediction) (f : Frame) :
  for_each bps _handle_ball_prediction f
  = Returns tt (with_prediction
                  (default (_latest_prediction (self f)) (last bps)) f).
Proof.
  revert f. induction bps as [|bp bps IH]; intros f.
  - simpl. unfold ret, with_prediction.
    destruct f as [c h es]. destruct h. reflexivity.
  - simpl for_each. unfold bind. unfold _handle_ball_prediction at 1.
    unfold update_self. fold (with_prediction bp f).
    rewrite IH, with_prediction_twice. f_equal. f_equal.
    destruct bps as [|bp' bps].
    + destruct f as [c h es]. reflexivity.
    + change (last (bp :: bp' :: bps)) with (last (bp' :: bps)).
      destruct (last (bp' :: bps)) eqn:E; [reflexivity|].
      apply last_None in E. discriminate.
Qed.

(** Predictions that arrive are only kept as the latest one:
    [ball_prediction] does not move and nothing is let out.  When a frame
    then passes the roster check, [ball_prediction] becomes the prediction
    that arrived last (the one held before, if none arrived), and it is
    with this value that [get_outputs] is called. *)
Theorem prediction_is_snapshotted_per_frame (f : Frame)
    (bps : list BallPrediction) (packet : GameTickPacket) (last_index : Z) :
  last (indices (cls f)) = Some last_index →
  last_index < Z.of_nat (length (players packet)) →
  ∃ f1,
    for_each bps _handle_ball_prediction f = Returns tt f1
    ∧ ball_prediction (self f1) = ball_prediction (self f)
    ∧ out f1 = out f
    ∧ ball_prediction (snapshot f1)
      = default (_latest_prediction (self f)) (last bps)
    ∧ self (frame_of (_packet_processor packet f1)) = snapshot f1
    ∧ ∃ es, out (frame_of (_packet_processor packet f1))
            = out f ++ call_get_outputs packet :: es.
Proof.
  intros Hlast Hlen. eexists. split; [apply predictions_loop|].
  split; [destruct f as [c h es]; reflexivity|].
  split; [reflexivity|].
  split; [destruct f as [c h es]; reflexivity|].
  rewrite HiveFacts.packet_processor_outcome.
  cbn [cls with_prediction]. rewrite Hlast.
  destruct (Z.leb_spec (Z.of_nat (length (players packet))) last_index)
    as [?|_]; [lia|].
  destruct (get_outputs _ _ _) as [controller|e];
    [cbv zeta; destruct (all_fit controller)|destruct (is_Exception e)];
    simpl; (split; [reflexivity|]); rewrite <- ?app_assoc; simpl; eauto.
Qed.

(** *** Match communication *)

Lemma fits_uint32_iff (n : Z) : fits_uint32 n = true ↔ 0 ≤ n < 2 ^ 32.
Proof.
  unfold fits_uint32. rewrite andb_true_iff, Z.leb_le, Z.ltb_lt. tauto.
Qed.

Lemma send_match_comm_outcome (f : Frame) (index : Z) (content : list Z)
    (display : option string) (team_only : bool) :
  send_match_comm index content display team_only f
  = if fits_uint32 index && fits_uint32 (team (self f))
    then Returns tt
           {| cls := cls f; self := self f;
              out := out f
                     ++ [relay_send_match_comm
                           {| comm_index := index;
                              comm_team := team (self f);
                              comm_team_only := team_only;
                              comm_display := display;
                              comm_content := content |}] |}
    else Raises OverflowError f.
Proof.
  unfold send_match_comm, bind, get_self, MatchComm_new.
  destruct (fits_uint32 index && fits_uint32 (team (self f))); reflexivity.
Qed.

(** What [send_match_comm] packs, [_handle_match_communication] unpacks:
    when the index and the sender's team are values a match communication
    can hold (unsigned 32-bit), the message sent carries the sender's team,
    and a controller that receives it calls [handle_match_communication]
    with the index, the content, the display text and the team-only flag the
    sender gave and with the sender's team.  The handler returns or raises
    as the hook does: an exception of the hook is not caught here. *)
Theorem match_comm_round_trip (sender receiver : Frame) (index : Z)
    (content : list Z) (display : option string) (team_only : bool) :
  0 ≤ index < 2 ^ 32 →
  0 ≤ team (self sender) < 2 ^ 32 →
  ∃ msg,
    send_match_comm index content display team_only sender
    = Returns tt {| cls := cls sender; self := self sender;
                    out := out sender ++ [relay_send_match_comm msg] |}
    ∧ _handle_match_communication msg receiver
      = let g := {| cls := cls receiver; self := self receiver;
                    out := out receiver
                           ++ [call_handle_match_communication
                                 index (team (self sender)) content display
                                 team_only] |} in
        match handle_match_communication (cls receiver) (self receiver)
                index (team (self sender)) content display team_only with
        | returned _ => Returns tt g
        | raised e => Raises e g
        end.
Proof.
  intros Hi Ht. rewrite send_match_comm_outcome.
  apply fits_uint32_iff in Hi. apply fits_uint32_iff in Ht.
  rewrite Hi, Ht. simpl.
  eexists. split; [reflexivity|].
  unfold _handle_match_communication, call_hook, bind, emit. simpl.
  destruct (handle_match_communication _ _ _ _ _ _ _) as [[]|e]; reflexivity.
Qed.

(** When the index or the controller's team is not a value a match
    communication can hold, [send_match_comm] raises OverflowError and
    sends nothing.  The team is -1 until a player-mapping payload has set
    it, so before that no match communication can be sent. *)
Theorem match_comm_out_of_range_is_not_sent (f : Frame) (index : Z)
    (content : list Z) (display : option string) (team_only : bool) :
  ¬ (0 ≤ index < 2 ^ 32 ∧ 0 ≤ team (self f) < 2 ^ 32) →
  send_match_comm index content display team_only f = Raises OverflowError f.
Proof.
  intros Hout. rewrite send_match_comm_outcome.
  destruct (fits_uint32 index && fits_uint32 (team (self f))) eqn:E;
    [|reflexivity].
  exfalso. apply Hout. apply andb_true_iff in E.
  rewrite !fits_uint32_iff in E. exact E.
Qed.

(** *** Outputs that no player input can hold *)

Lemma sendable_until_misfit (before after : list (Z * ControllerState))
    (index : Z) (c : ControllerState) :
  all_fit before = true →
  fits_uint32 index = false →
  sendable (before ++ (index, c) :: after) = before
  ∧ all_fit (before ++ (index, c) :: after) = false.
Proof.
  intros Hb Hi. induction before as [|entry l IH]; simpl in *.
  - rewrite Hi. split; reflexivity.
  - destruct (fits_uint32 entry.1); simpl in *; [|discriminate].
    destruct (IH Hb) as [-> ->]. split; reflexivity.
Qed.

(** When [get_outputs] answers with an entry whose index is not a value a
    player input can hold (unsigned 32-bit), [_packet_processor] raises
    OverflowError at that entry: the entries before it have been sent, in
    order, that entry and those after it are not, nothing is logged, and
    the loop's drain leaves the frame in the mailbox. *)
Theorem output_index_out_of_range_raises (f : Frame) (packet : GameTickPacket)
    (last_index : Z) (before after : list (Z * ControllerState)) (index : Z)
    (c : ControllerState) :
  last (indices (cls f)) = Some last_index →
  last_index < Z.of_nat (length (players packet)) →
  _latest_packet (self f) = Some packet →
  get_outputs (cls f) (snapshot f) packet
  = returned (before ++ (index, c) :: after) →
  (∀ i c', (i, c') ∈ before → 0 ≤ i < 2 ^ 32) →
  ¬ (0 ≤ index < 2 ^ 32) →
  _packet_processor packet f
  = Raises OverflowError
      {| cls := cls f; self := snapshot f;
         out := out f ++ call_get_outputs packet :: map input_message before |}
  ∧ drain f
    = Raises OverflowError
        {| cls := cls f; self := snapshot f;
           out := out f ++ call_get_outputs packet :: map input_message before |}
  ∧ _latest_packet (snapshot f) = Some packet.
Proof.
  intros Hlast Hlen Hp Hget Hbefore Hindex.
  assert (Hi : fits_uint32 index = false).
  { destruct (fits_uint32 index) eqn:E; [|reflexivity].
    apply fits_uint32_iff in E. contradiction. }
  destruct (sendable_until_misfit before after index c
              (HiveFacts.all_fit_intro before Hbefore) Hi) as [Hs Ha].
  assert (H : _packet_processor packet f
              = Raises OverflowError
                  {| cls := cls f; self := snapshot f;
                     out := out f ++ call_get_outputs packet
                                       :: map input_message before |}).
  { rewrite HiveFacts.packet_processor_outcome, Hlast.
    destruct (Z.leb_spec (Z.of_nat (length (players packet))) last_index)
      as [?|_]; [lia|].
    rewrite Hget. cbv zeta. rewrite Ha, Hs, <- app_assoc. reflexivity. }
  split; [exact H|]. split; [rewrite (drain_full packet f Hp), H; reflexivity|].
  exact Hp.
Qed.

(** *** The stored payloads and the roster over a run *)

Lemma deliver_self (d : Handshake) (f : Frame) :
  self (frame_of (deliver d f)) = self (stored d f)
  ∨ self (frame_of (deliver d f))
    = set__initialized_bot true (self (stored d f)).
Proof.
  rewrite HiveFacts.deliver_outcome.
  destruct (negb _ && _); [|left; reflexivity].
  rewrite HiveFacts.initialize_outcome. cbv zeta.
  destruct (initialize _ _) as [[]|e]; [|destruct (is_Exception e)];
    simpl; auto.
Qed.

Lemma stored_payloads (d : Handshake) (f : Frame) :
  match_settings (self (stored d f))
  = latest_match_settings (match_settings (self f)) [d]
  ∧ field_info (self (stored d f))
    = latest_field_info (field_info (self f)) [d]
  ∧ team (self (stored d f)) = latest_team (team (self f)) [d].
Proof. destruct d; repeat split. Qed.

(** When a run of handshake deliveries returns, the controller holds, of
    each kind, the payload that arrived last: the match settings, the field
    info, and the team of the last player-mapping payload; a kind that did
    not arrive is as it was before. *)
Theorem latest_payloads_are_kept (f : Frame) (ds : list Handshake)
    (u : unit) (g : Frame) :
  deliver_all ds f = Returns u g →
  match_settings (self g) = latest_match_settings (match_settings (self f)) ds
  ∧ field_info (self g) = latest_field_info (field_info (self f)) ds
  ∧ team (self g) = latest_team (team (self f)) ds.
Proof.
  revert f. induction ds as [|d ds IH]; intros f.
  - intros H. injection H as _ <-. repeat split.
  - rewrite HiveFacts.deliver_all_cons.
    pose proof (deliver_self d f) as Hs.
    destruct (stored_payloads d f) as (Hm & Hfi & Ht).
    destruct (deliver d f) as [u1 g1|e g1]; [|discriminate].
    intros Hg. destruct (IH g1 Hg) as (Hm' & Hfi' & Ht').
    simpl frame_of in Hs.
    assert (Hg1 : match_settings (self g1) = match_settings (self (stored d f))
                  ∧ field_info (self g1) = field_info (self (stored d f))
                  ∧ team (self g1) = team (self (stored d f))).
    { destruct Hs as [-> | ->]; repeat split. }
    destruct Hg1 as (E1 & E2 & E3).
    rewrite Hm', Hfi', Ht', E1, E2, E3, Hm, Hfi, Ht. repeat split.
Qed.

Lemma deliver_names_and_loggers (d : Handshake) (f : Frame) :
  names (cls f) = loggers (cls f) →
  names (cls (frame_of (deliver d f)))
  = loggers (cls (frame_of (deliver d f))).
Proof.
  intros H. destruct (HiveFacts.deliver_roster d f) as [[E|E] _]; rewrite E.
  - destruct d; simpl; exact H.
  - simpl. f_equal. destruct d; simpl; exact H.
Qed.

(** [names] and [loggers] go together: if they list the same names before
    a run of handshake deliveries, they do after it, however the run ends;
    each unit that gets a name gets the logger of that name. *)
Theorem names_and_loggers_stay_aligned (f : Frame) (ds : list Handshake) :
  names (cls f) = loggers (cls f) →
  names (cls (frame_of (deliver_all ds f)))
  = loggers (cls (frame_of (deliver_all ds f))).
Proof.
  revert f. induction ds as [|d ds IH]; intros f H.
  - exact H.
  - rewrite HiveFacts.deliver_all_cons.
    pose proof (deliver_names_and_loggers d f H) as Hd.
    destruct (deliver d f) as [u g1|e g1]; simpl in Hd.
    + apply IH, Hd.
    + exact Hd.
Qed.

(** Once [_initialized_bot] is up, a run of handshake deliveries returns
    and lets nothing out, and [names] and [loggers] no longer change;
    [spawn_ids] and [indices] still grow by every controllable that
    arrives.  So a player-mapping payload that comes after initialization
    adds units to the roster that never get a name. *)
Theorem roster_after_initialization (f : Frame) (ds : list Handshake) :
  _initialized_bot (self f) = true →
  ∃ g, deliver_all ds f = Returns tt g
       ∧ _initialized_bot (self g) = true
       ∧ out g = out f
       ∧ names (cls g) = names (cls f)
       ∧ loggers (cls g) = loggers (cls f)
       ∧ spawn_ids (cls g)
         = spawn_ids (cls f)
             ++ map controllable_spawn_id (mapped_controllables ds)
       ∧ indices (cls g)
         = indices (cls f)
             ++ map controllable_index (mapped_controllables ds).
Proof.
  revert f. induction ds as [|d ds IH]; intros f Hr.
  - exists f. simpl. rewrite !app_nil_r. repeat split. exact Hr.
  - rewrite HiveFacts.deliver_all_cons, (HiveFacts.deliver_when_ready d f Hr).
    destruct (HiveFacts.stored_flags d f) as (_ & _ & _ & Hr' & Ho).
    destruct (HiveFacts.stored_roster d f) as (Hs & Hi & Hn & _).
    destruct (IH (stored d f)) as (g & Hg & Hrg & Hog & Hng & Hlg & Hsg & Hig).
    { rewrite Hr'. exact Hr. }
    exists g. split; [exact Hg|]. split; [exact Hrg|].
    split; [rewrite Hog; exact Ho|]. split; [rewrite Hng; exact Hn|].
    split; [rewrite Hlg; destruct d; reflexivity|].
    replace (mapped_controllables (d :: ds))
      with (mapped_controllables [d] ++ mapped_controllables ds)
      by (simpl; rewrite app_nil_r; reflexivity).
    rewrite !map_app, !app_assoc, <- Hs, <- Hi. split; assumption.
Qed.

(** *** The desired-state writer, continued *)

(** A mapping that is not empty but has only negative keys is not left
    out: [set_game_state] sends for it the empty sequence, and none of its
    entries. *)
Theorem negative_keys_send_an_empty_sequence
    (balls : gmap Z DesiredBallState) (cars : gmap Z DesiredCarState)
    (game_info : option DesiredGameInfoState) (commands : list ConsoleCommand)
    (f : Frame) :
  balls ≠ ∅ →
  (∀ k, is_Some (balls !! k) → k < 0) →
  ∃ game_state,
    set_game_state balls cars game_info commands f
    = Returns tt {| cls := cls f; self := self f;
                    out := out f ++ [relay_send_game_state game_state] |}
    ∧ ball_states game_state = Some [].
Proof.
  intros Hne Hneg. unfold set_game_state, emit.
  destruct (HiveFacts.fill_blanks_dense DesiredBallState_default balls)
    as [_ Hd].
  destruct (Hd Hne) as (max_key & l & Hl & Hmax & _ & Hlen & _).
  specialize (Hneg max_key Hmax).
  assert (l = []) as ->.
  { apply length_zero_iff_nil. rewrite Hlen. lia. }
  rewrite Hl. eexists. split; [reflexivity|].
  destruct (fill_blanks DesiredCarState_default cars); reflexivity.
Qed.

(** *** The loop of [run] *)

Lemma frames_given_app (es es' : list Effect) :
  frames_given_to_get_outputs (es ++ es')
  = frames_given_to_get_outputs es ++ frames_given_to_get_outputs es'.
Proof. apply flat_map_app. Qed.

Lemma initialize_calls_no_get_outputs (f : Frame) :
  ∃ es, out (frame_of (_initialize f)) = out f ++ es
        ∧ frames_given_to_get_outputs es = [].
Proof.
  rewrite HiveFacts.initialize_outcome. cbv zeta.
  destruct (initialize _ _) as [[]|e]; [|destruct (is_Exception e)]; simpl;
    rewrite <- ?app_assoc; eexists; (split; [reflexivity|reflexivity]).
Qed.

Lemma deliver_calls_no_get_outputs (d : Handshake) (f : Frame) :
  ∃ es, out (frame_of (deliver d f)) = out f ++ es
        ∧ frames_given_to_get_outputs es = [].
Proof.
  rewrite HiveFacts.deliver_outcome.
  destruct (HiveFacts.stored_flags d f) as (_ & _ & _ & _ & Ho).
  destruct (negb _ && _).
  - destruct (initialize_calls_no_get_outputs (stored d f)) as (es & H & Hes).
    exists es. rewrite H, Ho. split; [reflexivity|exact Hes].
  - exists []. simpl. rewrite Ho, app_nil_r. split; reflexivity.
Qed.

Lemma invoke_calls_no_get_outputs (h : BoundMethod) (msg : Inbound)
    (f : Frame) :
  ∃ es, out (frame_of (invoke h msg f)) = out f ++ es
        ∧ frames_given_to_get_outputs es = [].
Proof.
  assert (Hquiet : ∃ es, out f = out f ++ es
                         ∧ frames_given_to_get_outputs es = []).
  { exists []. rewrite app_nil_r. split; reflexivity. }
  destruct h, msg; simpl; try exact Hquiet.
  - apply (deliver_calls_no_get_outputs (match_settings_arrives _)).
  - apply (deliver_calls_no_get_outputs (field_info_arrives _)).
  - apply (deliver_calls_no_get_outputs (player_mappings_arrive _)).
  - unfold _handle_match_communication, call_hook, bind, emit. simpl.
    destruct (handle_match_communication _ _ _ _ _ _ _) as [[]|e]; simpl;
      eexists; (split; [reflexivity|reflexivity]).
Qed.

Lemma for_each_calls_no_get_outputs {A} (l : list A) (body : A → M unit)
    (f : Frame) :
  (∀ x g, ∃ es, out (frame_of (body x g)) = out g ++ es
                ∧ frames_given_to_get_outputs es = []) →
  ∃ es, out (frame_of (for_each l body f)) = out f ++ es
        ∧ frames_given_to_get_outputs es = [].
Proof.
  intros Hbody. revert f. induction l as [|x l IH]; intros f.
  - exists []. simpl. rewrite app_nil_r. split; reflexivity.
  - simpl for_each. unfold bind.
    destruct (Hbody x f) as (es1 & H1 & Hes1).
    destruct (body x f) as [u g|e g]; simpl in H1.
    + destruct (IH g) as (es2 & H2 & Hes2).
      exists (es1 ++ es2). rewrite H2, H1, <- app_assoc.
      split; [reflexivity|]. rewrite frames_given_app, Hes1, Hes2. reflexivity.
    + exists es1. split; [exact H1|exact Hes1].
Qed.

Lemma handle_incoming_messages_calls_no_get_outputs (p : Poll) (f : Frame) :
  ∃ es, out (frame_of (handle_incoming_messages p f)) = out f ++ es
        ∧ frames_given_to_get_outputs es = [].
Proof.
  unfold handle_incoming_messages. unfold bind at 1. unfold get_self at 1.
  destruct (_game_interface (self f)) as [r|].
  - unfold bind.
    destruct (for_each_calls_no_get_outputs (arrived p)
                (fun msg => for_each (handlers_for r msg)
                              (fun m => invoke m msg)) f) as (es & H & Hes).
    { intros msg g. apply for_each_calls_no_get_outputs.
      intros h g'. apply invoke_calls_no_get_outputs. }
    exists es.
    destruct (for_each (arrived p) _ f) as [u g|e g]; simpl in H.
    + destruct (poll_end p); simpl; (split; [exact H|exact Hes]).
    + simpl. split; [exact H|exact Hes].
  - exists []. simpl. rewrite app_nil_r. split; reflexivity.
Qed.

Lemma drain_calls_get_outputs_at_most_once (f : Frame) :
  ∃ es, out (frame_of (drain f)) = out f ++ es
        ∧ (length (frames_given_to_get_outputs es) ≤ 1)%nat.
Proof.
  unfold drain. unfold bind at 1. unfold get_self at 1.
  destruct (_latest_packet (self f)) as [packet|].
  - destruct (HiveFacts.packet_processor_extends packet f) as (es & H & Hes).
    exists es. unfold bind.
    destruct (_packet_processor packet f) as [u g|e g]; simpl in H |- *;
      (split; [exact H|]); rewrite Hes;
      destruct (last (indices (cls f))) as [li|]; simpl;
      try destruct (_ <=? _); simpl; lia.
  - eexists. split; [reflexivity|]. simpl. lia.
Qed.

Lemma loop_body_calls_get_outputs_at_most_once (p : Poll) (f : Frame) :
  ∃ es, out (frame_of (loop_body p f)) = out f ++ es
        ∧ (length (frames_given_to_get_outputs es) ≤ 1)%nat.
Proof.
  unfold loop_body.
  destruct (handle_incoming_messages_calls_no_get_outputs p f)
    as (es1 & H1 & Hes1).
  destruct (handle_incoming_messages p f) as [u g|e g]; simpl in H1.
  - exists es1. simpl. split; [exact H1|]. rewrite Hes1. simpl. lia.
  - assert (Hother : ∃ es, out g = out f ++ es
                           ∧ (length (frames_given_to_get_outputs es) ≤ 1)%nat).
    { exists es1. split; [exact H1|]. rewrite Hes1. simpl. lia. }
    destruct e; try exact Hother.
    unfold bind.
    destruct (drain_calls_get_outputs_at_most_once g) as (es2 & H2 & Hes2).
    exists (es1 ++ es2).
    destruct (drain g) as [u' g'|e' g']; simpl in H2 |- *;
      rewrite H2, H1, <- app_assoc; (split; [reflexivity|]);
      rewrite frames_given_app, Hes1; exact Hes2.
Qed.

(** However many packets the relay hands over in one poll, each turn of the
    loop of [run] gives at most one frame to [get_outputs]: over any polls
    and from any controller, the calls of [get_outputs] made by the loop
    are no more than its turns. *)
Theorem loop_calls_get_outputs_at_most_once_a_turn (ps : list Poll)
    (f : Frame) :
  ∃ es, out (frame_of (loop ps f)) = out f ++ es
        ∧ (length (frames_given_to_get_outputs es) ≤ length ps)%nat.
Proof.
  revert f. induction ps as [|p ps IH]; intros f.
  - exists []. simpl. rewrite app_nil_r. split; [reflexivity|lia].
  - simpl loop. unfold bind.
    destruct (loop_body_calls_get_outputs_at_most_once p f)
      as (es1 & H1 & Hes1).
    destruct (loop_body p f) as [ctl g|e g]; simpl in H1.
    + destruct ctl.
      * exists es1. simpl. split; [exact H1|lia].
      * destruct (IH g) as (es2 & H2 & Hes2).
        exists (es1 ++ es2). rewrite H2, H1, <- app_assoc.
        split; [reflexivity|].
        rewrite frames_given_app, length_app. simpl. lia.
    + exists es1. simpl. split; [exact H1|lia].
Qed.

End WithRuns.

Lemma handshake_returns_when_initialize_does_witness :
  (∀ c h, @initialize Hivemind_base c h = returned tt)
  ∧ ∃ g, @deliver_all Hivemind_base
           [player_mappings_arrive one_unit;
            match_settings_arrives settings_one;
            field_info_arrives FieldInfo_default] Frame_start
         = Returns tt g.
Proof.
  split; [reflexivity|].
  apply (@handshake_returns_when_initialize_does Hivemind_base).
  reflexivity.
Defined.

Lemma frame_before_any_roster_raises_witness :
  (indices (cls (with_mailbox (Some (frame_numbered 1 1)) Frame_start)) = []
   ∧ _latest_packet (self (with_mailbox (Some (frame_numbered 1 1)) Frame_start))
     = Some (frame_numbered 1 1))
  ∧ @drain Flaky (with_mailbox (Some (frame_numbered 1 1)) Frame_start)
    = Raises IndexError (with_mailbox (Some (frame_numbered 1 1)) Frame_start).
Proof.
  split; [split; reflexivity|].
  apply (@frame_before_any_roster_raises Flaky
           (with_mailbox (Some (frame_numbered 1 1)) Frame_start)
           (frame_numbered 1 1)); reflexivity.
Defined.

Lemma non_exception_from_get_outputs_escapes_witness :
  (last (indices (cls (with_mailbox (Some (frame_numbered 1 1)) Frame_one_unit)))
   = Some 0
   ∧ 0 < Z.of_nat (length (players (frame_numbered 1 1)))
   ∧ is_Exception KeyboardInterrupt = false)
  ∧ @drain Interrupted (with_mailbox (Some (frame_numbered 1 1)) Frame_one_unit)
    = Raises KeyboardInterrupt
        {| cls := cls Frame_one_unit;
           self := snapshot (with_mailbox (Some (frame_numbered 1 1))
                               Frame_one_unit);
           out := [call_get_outputs (frame_numbered 1 1)] |}.
Proof.
  split; [repeat split|].
  apply (@non_exception_from_get_outputs_escapes Interrupted
           (with_mailbox (Some (frame_numbered 1 1)) Frame_one_unit)
           (frame_numbered 1 1) 0 KeyboardInterrupt);
    reflexivity.
Defined.

Lemma prediction_is_snapshotted_per_frame_witness :
  (last (indices (cls Frame_one_unit)) = Some 0
   ∧ 0 < Z.of_nat (length (players (frame_numbered 1 1))))
  ∧ ∃ f1,
      for_each [{| ball_prediction_payload := 4 |};
                {| ball_prediction_payload := 9 |}]
        _handle_ball_prediction Frame_one_unit = Returns tt f1
      ∧ ball_prediction
          (self (frame_of (@_packet_processor Flaky (frame_numbered 1 1) f1)))
        = {| ball_prediction_payload := 9 |}.
Proof.
  split; [split; reflexivity|].
  destruct (@prediction_is_snapshotted_per_frame Flaky Frame_one_unit
              [{| ball_prediction_payload := 4 |};
               {| ball_prediction_payload := 9 |}]
              (frame_numbered 1 1) 0 eq_refl eq_refl)
    as (f1 & Hf1 & _ & _ & Hbp & Hself & _).
  exists f1. split; [exact Hf1|]. rewrite Hself. exact Hbp.
Defined.

Lemma latest_payloads_are_kept_witness :
  ∃ g, @deliver_all Hivemind_base
         [match_settings_arrives settings_one;
          player_mappings_arrive one_unit;
          match_settings_arrives settings_two] Frame_start
       = Returns tt g
       ∧ match_settings (self g) = settings_two
       ∧ team (self g) = 0.
Proof.
  eexists. split; [reflexivity|].
  destruct (@latest_payloads_are_kept Hivemind_base Frame_start
              [match_settings_arrives settings_one;
               player_mappings_arrive one_unit;
               match_settings_arrives settings_two] tt _ eq_refl)
    as (Hm & _ & Ht).
  split; [exact Hm|exact Ht].
Defined.

Lemma names_and_loggers_stay_aligned_witness :
  names (cls Frame_start) = loggers (cls Frame_start)
  ∧ names (cls (frame_of
                  (@deliver_all Hivemind_base
                     [player_mappings_arrive one_unit;
                      match_settings_arrives settings_one;
                      field_info_arrives FieldInfo_default] Frame_start)))
    = loggers (cls (frame_of
                      (@deliver_all Hivemind_base
                         [player_mappings_arrive one_unit;
                          match_settings_arrives settings_one;
                          field_info_arrives FieldInfo_default] Frame_start))).
Proof.
  split; [reflexivity|].
  apply (@names_and_loggers_stay_aligned Hivemind_base). reflexivity.
Defined.

Lemma roster_after_initialization_witness :
  _initialized_bot
    (self (frame_of
             (@deliver_all Hivemind_base
                [player_mappings_arrive one_unit;
                 match_settings_arrives settings_one;
                 field_info_arrives FieldInfo_default] Frame_start))) = true
  ∧ ∃ g, @deliver_all Hivemind_base
           [player_mappings_arrive two_units_unordered]
           (frame_of
              (@deliver_all Hivemind_base
                 [player_mappings_arrive one_unit;
                  match_settings_arrives settings_one;
                  field_info_arrives FieldInfo_default] Frame_start))
         = Returns tt g
         ∧ names (cls g) = ["solo"]
         ∧ spawn_ids (cls g) = [10; 50; 20].
Proof.
  split; [reflexivity|].
  destruct (@roster_after_initialization Hivemind_base
              (frame_of
                 (@deliver_all Hivemind_base
                    [player_mappings_arrive one_unit;
                     match_settings_arrives settings_one;
                     field_info_arrives FieldInfo_default] Frame_start))
              [player_mappings_arrive two_units_unordered] eq_refl)
    as (g & Hg & _ & _ & Hn & _ & Hs & _).
  exists g. split; [exact Hg|]. split; [rewrite Hn|rewrite Hs]; reflexivity.
Defined.

Lemma negative_keys_send_an_empty_sequence_witness :
  (({[-2 := ball_placed]} : gmap Z DesiredBallState) ≠ ∅
   ∧ ∀ k, is_Some (({[-2 := ball_placed]} : gmap Z DesiredBallState) !! k) →
          k < 0)
  ∧ ∃ game_state,
      out (frame_of (set_game_state {[-2 := ball_placed]} ∅ None [] Frame_start))
      = [relay_send_game_state game_state]
      ∧ ball_states game_state = Some [].
Proof.
  assert (H1 : ({[-2 := ball_placed]} : gmap Z DesiredBallState) ≠ ∅)
    by apply insert_non_empty.
  assert (H2 : ∀ k, is_Some (({[-2 := ball_placed]} : gmap Z DesiredBallState)
                               !! k) → k < 0).
  { intros k [v Hv]. apply lookup_singleton_Some in Hv. lia. }
  split; [split; assumption|].
  destruct (negative_keys_send_an_empty_sequence
              {[-2 := ball_placed]} ∅ None [] Frame_start H1 H2)
    as (game_state & E & Hb).
  exists game_state. rewrite E. split; [reflexivity|exact Hb].
Defined.

Lemma base_packet_processor (packet : GameTickPacket) (f : Frame)
    (last_index : Z) :
  last (indices (cls f)) = Some last_index →
  @_packet_processor Hivemind_base packet f
  = Returns tt
      (if passes last_index packet then
         {| cls := cls f; self := snapshot f;
            out := out f
                   ++ [call_get_outputs packet;
                       log_error
                         "Hivemind (with %s) returned an error to RLBot: %s"
                         [arg_names (names (cls f));
                          arg_exn NotImplementedError];
                       print_exc] |}
       else f).
Proof.
  intros Hlast. rewrite HiveFacts.packet_processor_outcome, Hlast.
  unfold passes.
  destruct (Z.of_nat (length (players packet)) <=? last_index); simpl;
    [reflexivity|].
  rewrite <- !app_assoc. reflexivity.
Qed.

(** A controller that does not override [get_outputs] never sends a player
    input: on a roster that is not empty every frame is processed without
    raising, and each frame that passes the roster check logs one error, the
    NotImplementedError of the hook as the class has it. *)
Theorem unimplemented_get_outputs_sends_nothing (f : Frame)
    (packets : list GameTickPacket) (last_index : Z) :
  last (indices (cls f)) = Some last_index →
  ∃ g, for_each packets (@_packet_processor Hivemind_base) f = Returns tt g
       ∧ cls g = cls f
       ∧ List.filter is_relay_send_player_input (out g)
         = List.filter is_relay_send_player_input (out f)
       ∧ length (List.filter is_error_record (out g))
         = (length (List.filter is_error_record (out f))
            + length (List.filter (passes last_index) packets))%nat.
Proof.
  revert f. induction packets as [|packet packets IH]; intros f Hlast.
  - exists f. simpl. repeat split. lia.
  - simpl for_each. unfold bind.
    rewrite (base_packet_processor packet f last_index Hlast).
    destruct (passes last_index packet) eqn:Hp.
    + destruct (IH {| cls := cls f; self := snapshot f;
                      out := out f
                             ++ [call_get_outputs packet;
                                 log_error
                                   "Hivemind (with %s) returned an error to RLBot: %s"
                                   [arg_names (names (cls f));
                                    arg_exn NotImplementedError];
                                 print_exc] |} Hlast)
        as (g & Hg & Hc & Hs & He).
      exists g. split; [exact Hg|]. split; [exact Hc|].
      simpl in Hs, He. rewrite List.filter_app in Hs, He.
      rewrite length_app in He. simpl in Hs, He.
      rewrite app_nil_r in Hs.
      split; [exact Hs|]. simpl. rewrite Hp. simpl. lia.
    + destruct (IH f Hlast) as (g & Hg & Hc & Hs & He).
      exists g. split; [exact Hg|]. split; [exact Hc|].
      split; [exact Hs|]. simpl. rewrite Hp. exact He.
Qed.

Lemma unimplemented_get_outputs_sends_nothing_witness :
  last (indices (cls Frame_one_unit)) = Some 0
  ∧ ∃ g, for_each [frame_numbered 1 1; frame_numbered 2 0; frame_numbered 3 2]
           (@_packet_processor Hivemind_base) Frame_one_unit
         = Returns tt g
         ∧ List.filter is_relay_send_player_input (out g) = []
         ∧ length (List.filter is_error_record (out g)) = 2%nat.
Proof.
  split; [reflexivity|].
  destruct (unimplemented_get_outputs_sends_nothing Frame_one_unit
              [frame_numbered 1 1; frame_numbered 2 0; frame_numbered 3 2]
              0 eq_refl) as (g & Hg & _ & Hs & He).
  exists g. split; [exact Hg|]. split; [exact Hs|exact He].
Defined.

Lemma match_comm_round_trip_witness :
  (0 ≤ 3 < 2 ^ 32 ∧ 0 ≤ team (self Frame_one_unit) < 2 ^ 32)
  ∧ ∃ msg,
      out (frame_of (send_match_comm 3 [104; 105] (Some "hi") true
                       Frame_one_unit))
      = [relay_send_match_comm msg]
      ∧ out (frame_of (@_handle_match_communication Hivemind_base msg
                         Frame_start))
        = [call_handle_match_communication 3 0 [104; 105] (Some "hi") true].
Proof.
  split; [split; split; (reflexivity || discriminate)|].
  destruct (@match_comm_round_trip Hivemind_base Frame_one_unit Frame_start
              3 [104; 105] (Some "hi") true)
    as (msg & Hsend & Hrecv).
  { split; (reflexivity || discriminate). }
  { split; (reflexivity || discriminate). }
  exists msg. rewrite Hsend, Hrecv. split; reflexivity.
Defined.

Lemma match_comm_out_of_range_is_not_sent_witness :
  ¬ (0 ≤ 3 < 2 ^ 32 ∧ 0 ≤ team (self Frame_start) < 2 ^ 32)
  ∧ send_match_comm 3 [104; 105] None false Frame_start
    = Raises OverflowError Frame_start.
Proof.
  assert (H : ¬ (0 ≤ 3 < 2 ^ 32 ∧ 0 ≤ team (self Frame_start) < 2 ^ 32)).
  { intros [_ [H _]]. apply H. reflexivity. }
  split; [exact H|].
  apply (match_comm_out_of_range_is_not_sent Frame_start 3 [104; 105] None
           false H).
Defined.

Lemma output_index_out_of_range_raises_witness :
  (last (indices (cls (with_mailbox (Some (frame_numbered 1 1)) Frame_one_unit)))
   = Some 0
   ∧ 0 < Z.of_nat (length (players (frame_numbered 1 1)))
   ∧ ¬ (0 ≤ -1 < 2 ^ 32))
  ∧ @drain Misaddressed
      (with_mailbox (Some (frame_numbered 1 1)) Frame_one_unit)
    = Raises OverflowError
        {| cls := cls Frame_one_unit;
           self := snapshot (with_mailbox (Some (frame_numbered 1 1))
                               Frame_one_unit);
           out := [call_get_outputs (frame_numbered 1 1);
                   input_message (0, {| controller_state_payload := 1 |})] |}.
Proof.
  assert (Hneg : ¬ (0 ≤ -1 < 2 ^ 32)).
  { intros [H _]. apply H. reflexivity. }
  split; [split; [reflexivity|split; [reflexivity|exact Hneg]]|].
  apply (@output_index_out_of_range_raises Misaddressed
           (with_mailbox (Some (frame_numbered 1 1)) Frame_one_unit)
           (frame_numbered 1 1) 0
           [(0, {| controller_state_payload := 1 |})]
           [(0, {| controller_state_payload := 3 |})]
           (-1) {| controller_state_payload := 2 |});
    try reflexivity; [|exact Hneg].
  intros i c' Hin. apply list_elem_of_singleton in Hin.
  injection Hin as -> _. split; [reflexivity|reflexivity].
Defined.

End HiveRuns.
